(** * dnslookup: a per-domain cache of DNS records

    A shallow embedding of the Go package [dnslookup] (main.go) and of the
    command-line program that drives it, followed by the properties of the
    cache policy: when a lookup is made, when it is served from the stored
    slot, and what happens when the resolver fails.

    The package keeps one [DnsRecord] per domain and a package-level
    [sync.Mutex].  Every accessor reads its slot, calls the [net] resolver
    when the slot holds Go's zero value, stores the answer and returns the
    slot.  The resolver is the outside world: it is a parameter of every
    definition below, and every call made to it is logged. *)

From Stdlib Require Import Strings.String Strings.Byte Lists.List ZArith Lia.
From stdpp Require Import base option list strings pretty gmap.

Local Open Scope string_scope.
Local Open Scope list_scope.

(** ** Go values *)

(** A Go slice is either [nil] or a (possibly empty) sequence: the two are
    told apart by [s == nil], which is what the cache tests. *)
Definition slice (A : Type) : Type := option (list A).

Definition nil_slice {A : Type} : slice A := None.

Definition elems {A : Type} (s : slice A) : list A :=
  match s with
  | None => []
  | Some l => l
  end.

Definition len {A : Type} (s : slice A) : nat := length (elems s).

(** [s == nil] *)
Definition is_nil {A : Type} (s : slice A) : bool :=
  match s with
  | None => true
  | Some _ => false
  end.

(** [append(s, xs...)]: appending nothing to a nil slice gives back the nil
    slice, since no backing array has to be allocated. *)
Definition append {A : Type} (s xs : slice A) : slice A :=
  match s, elems xs with
  | None, [] => None
  | None, x :: l => Some (x :: l)
  | Some l0, l => Some (l0 ++ l)
  end.

(** [make([]T, n)]: a non-nil slice of [n] zero values. *)
Definition make {A : Type} (zero : A) (n : nat) : slice A := Some (replicate n zero).

(** [s[i] = x] for an index in range. *)
Definition set_index {A : Type} (s : slice A) (i : nat) (x : A) : slice A :=
  match s with
  | None => None
  | Some l => Some (<[i := x]> l)
  end.

(** [net.IP] is a byte slice; [net.MX] and [net.NS] are structs. *)
Definition IP : Type := list byte.

Record MX : Type := mkMX { mx_Host : string; mx_Pref : Z }.
Record NS : Type := mkNS { ns_Host : string }.

Definition zero_MX : MX := {| mx_Host := ""; mx_Pref := 0 |}.
Definition zero_NS : NS := {| ns_Host := "" |}.

(** A Go [error] value: [nil] or an error carrying a message. *)
Definition error : Type := option string.

(** [err == nil] *)
Definition err_is_nil (e : error) : bool :=
  match e with
  | None => true
  | Some _ => false
  end.

(** What an accessor hands back, and what an [interface{}] cell of the
    aggregate map holds. *)
Inductive Value : Type :=
  | VIPs (s : slice IP)
  | VString (s : string)
  | VMXs (s : slice MX)
  | VNSs (s : slice NS)
  | VStrings (s : slice string).

(** ** The resolver *)

(** One entry of the log per call made to package [net]. *)
Inductive Query : Type :=
  | QIP (host : string)
  | QCNAME (host : string)
  | QMX (host : string)
  | QNS (name : string)
  | QAddr (addr : string)
  | QTXT (name : string).

(** The functions of package [net] that the cache uses.  Each lookup gets
    the log of the calls made before it (latest first), so that a resolver
    may answer the same question differently over time, and returns Go's
    pair of a result and an error.  [LookupMX] and [LookupNS] return slices
    of pointers to records that [net] has just allocated: none is nil, and
    the element here is the record pointed to. *)
Record Net : Type := mkNet {
  IP_String : IP -> string;
  LookupIP : list Query -> string -> slice IP * error;
  LookupCNAME : list Query -> string -> string * error;
  LookupMX : list Query -> string -> slice MX * error;
  LookupNS : list Query -> string -> slice NS * error;
  LookupAddr : list Query -> string -> slice string * error;
  LookupTXT : list Query -> string -> slice string * error
}.

(** ** The record and the process state *)

Record DnsRecord : Type := mkDnsRecord {
  domain : string;
  aRecords : slice IP;
  cnameRecords : string;
  mxRecords : slice MX;
  nsRecords : slice NS;
  ptrRecords : slice string;
  txtRecords : slice string
}.

Definition set_aRecords (v : slice IP) (r : DnsRecord) : DnsRecord :=
  mkDnsRecord (domain r) v (cnameRecords r) (mxRecords r) (nsRecords r)
    (ptrRecords r) (txtRecords r).

Definition set_cnameRecords (v : string) (r : DnsRecord) : DnsRecord :=
  mkDnsRecord (domain r) (aRecords r) v (mxRecords r) (nsRecords r)
    (ptrRecords r) (txtRecords r).

Definition set_mxRecords (v : slice MX) (r : DnsRecord) : DnsRecord :=
  mkDnsRecord (domain r) (aRecords r) (cnameRecords r) v (nsRecords r)
    (ptrRecords r) (txtRecords r).

Definition set_nsRecords (v : slice NS) (r : DnsRecord) : DnsRecord :=
  mkDnsRecord (domain r) (aRecords r) (cnameRecords r) (mxRecords r) v
    (ptrRecords r) (txtRecords r).

Definition set_ptrRecords (v : slice string) (r : DnsRecord) : DnsRecord :=
  mkDnsRecord (domain r) (aRecords r) (cnameRecords r) (mxRecords r)
    (nsRecords r) v (txtRecords r).

Definition set_txtRecords (v : slice string) (r : DnsRecord) : DnsRecord :=
  mkDnsRecord (domain r) (aRecords r) (cnameRecords r) (mxRecords r)
    (nsRecords r) (ptrRecords r) v.

(** [NewDnsRecord]: the domain as given, every slot at its zero value. *)
Definition NewDnsRecord (domainName : string) : DnsRecord :=
  {| domain := domainName;
     aRecords := nil_slice;
     cnameRecords := "";
     mxRecords := nil_slice;
     nsRecords := nil_slice;
     ptrRecords := nil_slice;
     txtRecords := nil_slice |}.

(** The state one goroutine sees: the record behind the receiver [d], the
    package-level [mutex] ([true] when locked) and the log of resolver
    calls, latest first. *)
Record World : Type := mkWorld {
  rec : DnsRecord;
  mutex : bool;
  calls : list Query
}.

(** A process that has just built its record: mutex unlocked (the zero
    [sync.Mutex]), nothing asked yet. *)
Definition start (domainName : string) : World :=
  {| rec := NewDnsRecord domainName; mutex := false; calls := [] |}.

(** ** Computations that may end the process *)

(** The Go runtime ends the process, with no way to recover, when an
    unlocked mutex is unlocked ("fatal error: sync: unlock of unlocked
    mutex") and when the only goroutine blocks on a mutex that is already
    locked ("all goroutines are asleep - deadlock!"). *)
Inductive Fault : Type :=
  | UnlockOfUnlockedMutex
  | Deadlock.

Inductive Outcome (A : Type) : Type :=
  | Returned (a : A) (w : World)
  | Fatal (f : Fault).

Arguments Returned {A} a w.
Arguments Fatal {A} f.

Definition Go (A : Type) : Type := World -> Outcome A.

Definition ret {A : Type} (a : A) : Go A := fun w => Returned a w.

Definition bind {A B : Type} (m : Go A) (k : A -> Go B) : Go B :=
  fun w =>
    match m w with
    | Returned a w' => k a w'
    | Fatal f => Fatal f
    end.

Declare Scope go_scope.
Delimit Scope go_scope with go.
Notation "'do' x <- m 'in' k" := (bind m (fun x => k))
  (at level 10, x pattern, m at level 100, k at level 200) : go_scope.
Notation "m '>>' k" := (bind m (fun _ => k))
  (at level 65, right associativity) : go_scope.
Local Open Scope go_scope.

(** Reading and writing the fields of [d]. *)
Definition load : Go DnsRecord := fun w => Returned (rec w) w.

Definition store (f : DnsRecord -> DnsRecord) : Go unit :=
  fun w => Returned tt (mkWorld (f (rec w)) (mutex w) (calls w)).

(** [mutex.Lock()] and [mutex.Unlock()]. *)
Definition mutex_Lock : Go unit :=
  fun w =>
    if mutex w then Fatal Deadlock
    else Returned tt (mkWorld (rec w) true (calls w)).

Definition mutex_Unlock : Go unit :=
  fun w =>
    if mutex w then Returned tt (mkWorld (rec w) false (calls w))
    else Fatal UnlockOfUnlockedMutex.

(** A call to [net]: the answer is computed from the log so far, then the
    call is logged. *)
Definition ask {A : Type} (q : Query) (answer : list Query -> A) : Go A :=
  fun w => Returned (answer (calls w)) (mkWorld (rec w) (mutex w) (q :: calls w)).

(** ** The accessors *)

Section Accessors.

Variable N : Net.

(** [GetARecords] *)
Definition GetARecords : Go (slice IP) :=
  do d <- load in
  if is_nil (aRecords d) then
    do (aRecords', err) <- ask (QIP (domain d)) (fun h => LookupIP N h (domain d)) in
    (if err_is_nil err then
       mutex_Lock >>
       store (fun d => set_aRecords (append (aRecords d) aRecords') d) >>
       mutex_Unlock
     else ret tt) >>
    do d <- load in ret (aRecords d)
  else ret (aRecords d).

(** [GetCnameRecords]: the unlock comes after the [if], not inside it. *)
Definition GetCnameRecords : Go string :=
  do d <- load in
  if String.eqb (cnameRecords d) "" then
    do (cnameRecords', err) <- ask (QCNAME (domain d)) (fun h => LookupCNAME N h (domain d)) in
    (if err_is_nil err then
       mutex_Lock >>
       store (set_cnameRecords cnameRecords')
     else ret tt) >>
    mutex_Unlock >>
    do d <- load in ret (cnameRecords d)
  else ret (cnameRecords d).

(** The copy loops of [GetMxRecords] and [GetNsRecords]:
    [for i, record := range src { dst[i] = *record }], from index [i]. *)
Fixpoint copy_from {A : Type} (src : list A) (i : nat) (dst : slice A) : slice A :=
  match src with
  | [] => dst
  | record :: rest => copy_from rest (S i) (set_index dst i record)
  end.

(** [GetMxRecords] *)
Definition GetMxRecords : Go (slice MX) :=
  do d <- load in
  if is_nil (mxRecords d) then
    do (mxRecords', err) <- ask (QMX (domain d)) (fun h => LookupMX N h (domain d)) in
    (if err_is_nil err then
       mutex_Lock >>
       store (set_mxRecords (make zero_MX (len mxRecords'))) >>
       store (fun d => set_mxRecords (copy_from (elems mxRecords') 0 (mxRecords d)) d) >>
       mutex_Unlock
     else ret tt) >>
    do d <- load in ret (mxRecords d)
  else ret (mxRecords d).

(** [GetNsRecords] *)
Definition GetNsRecords : Go (slice NS) :=
  do d <- load in
  (if is_nil (nsRecords d) then
     do (nsRecords', err) <- ask (QNS (domain d)) (fun h => LookupNS N h (domain d)) in
     if err_is_nil err then
       mutex_Lock >>
       store (set_nsRecords (make zero_NS (len nsRecords'))) >>
       store (fun d => set_nsRecords (copy_from (elems nsRecords') 0 (nsRecords d)) d) >>
       mutex_Unlock
     else ret tt
   else ret tt) >>
  do d <- load in ret (nsRecords d).

(** The loop of [GetPtrRecords]:
    [for _, v := range d.aRecords { ptr, _ := net.LookupAddr(v.String()); ... }].
    The error of the reverse lookup is dropped. *)
Fixpoint reverse_each (addrs : list IP) : Go unit :=
  match addrs with
  | [] => ret tt
  | v :: rest =>
      do (ptr, _) <- ask (QAddr (IP_String N v)) (fun h => LookupAddr N h (IP_String N v)) in
      store (fun d => set_ptrRecords (append (ptrRecords d) ptr) d) >>
      reverse_each rest
  end.

(** [GetPtrRecords]: one loop inside the branch that fetches the
    addresses, and one more after it. *)
Definition GetPtrRecords : Go (slice string) :=
  do d <- load in
  (if is_nil (ptrRecords d) then
     (if is_nil (aRecords d) then
        GetARecords >>
        do d <- load in reverse_each (elems (aRecords d))
      else ret tt) >>
     do d <- load in reverse_each (elems (aRecords d))
   else ret tt) >>
  do d <- load in ret (ptrRecords d).

(** [GetTxtRecords]: as in [GetCnameRecords], the unlock is outside the
    test of the error. *)
Definition GetTxtRecords : Go (slice string) :=
  do d <- load in
  (if is_nil (txtRecords d) then
     do (txtRecords', err) <- ask (QTXT (domain d)) (fun h => LookupTXT N h (domain d)) in
     (if err_is_nil err then
        mutex_Lock >>
        store (set_txtRecords txtRecords')
      else ret tt) >>
     mutex_Unlock
   else ret tt) >>
  do d <- load in ret (txtRecords d).

(** [GetAllRecords]: a fresh map, filled key by key. *)
Definition GetAllRecords : Go (gmap string Value) :=
  let records : gmap string Value := ∅ in
  do a <- GetARecords in
  let records := <["A records" := VIPs a]> records in
  do c <- GetCnameRecords in
  let records := <["CNAME records" := VString c]> records in
  do m <- GetMxRecords in
  let records := <["MX records" := VMXs m]> records in
  do n <- GetNsRecords in
  let records := <["NS records" := VNSs n]> records in
  do p <- GetPtrRecords in
  let records := <["PTR records" := VStrings p]> records in
  do t <- GetTxtRecords in
  let records := <["TXT records" := VStrings t]> records in
  ret records.

End Accessors.

(** ** The six accessors, by record kind *)

Inductive Kind : Type := KA | KCNAME | KMX | KNS | KPTR | KTXT.

(** The slot an accessor returns. *)
Definition slot (k : Kind) (d : DnsRecord) : Value :=
  match k with
  | KA => VIPs (aRecords d)
  | KCNAME => VString (cnameRecords d)
  | KMX => VMXs (mxRecords d)
  | KNS => VNSs (nsRecords d)
  | KPTR => VStrings (ptrRecords d)
  | KTXT => VStrings (txtRecords d)
  end.

(** The test each accessor starts with, negated: the slot is cached when it
    is not nil (not the empty string for the canonical name). *)
Definition cached (k : Kind) (d : DnsRecord) : bool :=
  match k with
  | KA => negb (is_nil (aRecords d))
  | KCNAME => negb (String.eqb (cnameRecords d) "")
  | KMX => negb (is_nil (mxRecords d))
  | KNS => negb (is_nil (nsRecords d))
  | KPTR => negb (is_nil (ptrRecords d))
  | KTXT => negb (is_nil (txtRecords d))
  end.

Definition accessor (N : Net) (k : Kind) : Go Value :=
  match k with
  | KA => do v <- GetARecords N in ret (VIPs v)
  | KCNAME => do v <- GetCnameRecords N in ret (VString v)
  | KMX => do v <- GetMxRecords N in ret (VMXs v)
  | KNS => do v <- GetNsRecords N in ret (VNSs v)
  | KPTR => do v <- GetPtrRecords N in ret (VStrings v)
  | KTXT => do v <- GetTxtRecords N in ret (VStrings v)
  end.

(** The resolver call an accessor makes for its own kind, on the domain. *)
Definition query (k : Kind) (name : string) : Query :=
  match k with
  | KA | KPTR => QIP name
  | KCNAME => QCNAME name
  | KMX => QMX name
  | KNS => QNS name
  | KTXT => QTXT name
  end.

(** Whether a logged call is a reverse lookup. *)
Definition is_reverse (q : Query) : bool :=
  match q with
  | QAddr _ => true
  | _ => false
  end.

Definition reverse_lookups (log : list Query) : nat :=
  length (List.filter is_reverse log).

(** A method call on the record, as a client may issue it. *)
Inductive Call : Type :=
  | Get (k : Kind)
  | GetAll.

Definition perform (N : Net) (c : Call) : Go unit :=
  match c with
  | Get k => accessor N k >> ret tt
  | GetAll => GetAllRecords N >> ret tt
  end.

(** The states a client can bring the process to: each call that returns
    moves to the state it leaves; a call that ends the process leads
    nowhere. *)
Inductive reaches (N : Net) : World -> list Call -> World -> Prop :=
  | reaches_nil w : reaches N w [] w
  | reaches_cons w c w1 cs w2 :
      perform N c w = Returned tt w1 ->
      reaches N w1 cs w2 ->
      reaches N w (c :: cs) w2.

(** ** The command-line program *)

Definition searchOptions : list string :=
  ["a"; "all"; "cname"; "mx"; "ns"; "ptr"; "txt"].

(** The loop of [isValidSearchType] over the options left, with the
    current value of [found]; [return true] leaves the loop at a match. *)
Fixpoint search (searchType : string) (options : list string) (found : bool) : bool :=
  match options with
  | [] => found
  | v :: rest =>
      if negb (String.eqb searchType v) then search searchType rest false
      else true
  end.

Definition isValidSearchType (searchType : string) : bool :=
  search searchType searchOptions true.

(** What [fmt.Println] is given. *)
Inductive Line : Type :=
  | PrintValue (v : Value)
  | PrintMap (m : gmap string Value).

Definition usage : string :=
  "error: -domain and -s parameters required. usage: dnssearch -domain example.net -s all".

(** [flag.String(name, "", ...)]: the value given on the command line, the
    empty string when the flag is missing. *)
Definition flag_String (given : option string) : string :=
  match given with
  | Some s => s
  | None => ""
  end.

(** [main], from the two flags as parsed to the lines printed. *)
Definition main (N : Net) (domainFlag sFlag : option string) : Outcome (list Line) :=
  let domain := flag_String domainFlag in
  let searchType := flag_String sFlag in
  let recorder := start domain in
  if negb (isValidSearchType searchType) then
    Returned [PrintValue (VString usage)] recorder
  else if String.eqb searchType "a" then
    (do v <- GetARecords N in ret [PrintValue (VIPs v)]) recorder
  else if String.eqb searchType "all" then
    (do m <- GetAllRecords N in ret [PrintMap m]) recorder
  else if String.eqb searchType "cname" then
    (do v <- GetCnameRecords N in ret [PrintValue (VString v)]) recorder
  else if String.eqb searchType "mx" then
    (do v <- GetMxRecords N in ret [PrintValue (VMXs v)]) recorder
  else if String.eqb searchType "ns" then
    (do v <- GetNsRecords N in ret [PrintValue (VNSs v)]) recorder
  else if String.eqb searchType "ptr" then
    (do v <- GetPtrRecords N in ret [PrintValue (VStrings v)]) recorder
  else if String.eqb searchType "txt" then
    (do v <- GetTxtRecords N in ret [PrintValue (VStrings v)]) recorder
  else Returned [] recorder.

(** ** Resolvers to run the code on *)

(** Dotted decimal, as [net.IP.String] prints a four-byte address. *)
Definition dotted (ip : IP) : string :=
  String.concat "." (List.map (fun b => pretty (Byte.to_N b)) ip).

Definition no_such_host : error := Some "no such host".

(** Every lookup fails. *)
Definition failing : Net :=
  {| IP_String := dotted;
     LookupIP := fun _ _ => (nil_slice, no_such_host);
     LookupCNAME := fun _ _ => ("", no_such_host);
     LookupMX := fun _ _ => (nil_slice, no_such_host);
     LookupNS := fun _ _ => (nil_slice, no_such_host);
     LookupAddr := fun _ _ => (nil_slice, no_such_host);
     LookupTXT := fun _ _ => (nil_slice, no_such_host) |}.

Definition example_ip : IP := [x5d; xb8; xd8; x22].

(** Every lookup succeeds, with the records of example.com. *)
Definition answering : Net :=
  {| IP_String := dotted;
     LookupIP := fun _ _ => (Some [example_ip], None);
     LookupCNAME := fun _ _ => ("example.com.", None);
     LookupMX := fun _ _ => (Some [mkMX "." 0], None);
     LookupNS := fun _ _ => (Some [mkNS "a.iana-servers.net."; mkNS "b.iana-servers.net."], None);
     LookupAddr := fun _ _ => (Some ["host.example.com."], None);
     LookupTXT := fun _ _ => (Some ["v=spf1 -all"], None) |}.

(** Every lookup succeeds with no record at all. *)
Definition answering_empty : Net :=
  {| IP_String := dotted;
     LookupIP := fun _ _ => (Some [], None);
     LookupCNAME := fun _ _ => ("", None);
     LookupMX := fun _ _ => (Some [], None);
     LookupNS := fun _ _ => (Some [], None);
     LookupAddr := fun _ _ => (Some [], None);
     LookupTXT := fun _ _ => (Some [], None) |}.

(** The first lookup of the process fails, the later ones succeed. *)
Definition first_fails {A : Type} (log : list Query) (bad good : A * error) : A * error :=
  match log with
  | [] => bad
  | _ :: _ => good
  end.

Definition flaky : Net :=
  {| IP_String := dotted;
     LookupIP := fun h n => first_fails h (LookupIP failing h n) (LookupIP answering h n);
     LookupCNAME := fun h n => first_fails h (LookupCNAME failing h n) (LookupCNAME answering h n);
     LookupMX := fun h n => first_fails h (LookupMX failing h n) (LookupMX answering h n);
     LookupNS := fun h n => first_fails h (LookupNS failing h n) (LookupNS answering h n);
     LookupAddr := fun h n => first_fails h (LookupAddr failing h n) (LookupAddr answering h n);
     LookupTXT := fun h n => first_fails h (LookupTXT failing h n) (LookupTXT answering h n) |}.

(** The first lookup of the process succeeds with nothing in it (no
    address, the empty name, a nil list of texts), the later ones succeed
    with the records of example.com. *)
Definition empty_at_first : Net :=
  {| IP_String := dotted;
     LookupIP := fun h n => first_fails h (Some [], None) (LookupIP answering h n);
     LookupCNAME := fun h n => first_fails h ("", None) (LookupCNAME answering h n);
     LookupMX := fun h n => first_fails h (Some [], None) (LookupMX answering h n);
     LookupNS := fun h n => first_fails h (Some [], None) (LookupNS answering h n);
     LookupAddr := fun h n => first_fails h (nil_slice, None) (LookupAddr answering h n);
     LookupTXT := fun h n => first_fails h (nil_slice, None) (LookupTXT answering h n) |}.

(** ** Vocabulary of the properties *)

(** The reverse lookups asked for a list of addresses, in the order of the
    calls. *)
Definition asked (N : Net) (addrs : list IP) : list Query :=
  List.map (fun v => QAddr (IP_String N v)) addrs.

#[global] Instance Query_eq_dec : EqDecision Query.
Proof. solve_decision. Defined.

(** How many times the call [q] is in a log. *)
Definition lookups (q : Query) (log : list Query) : nat :=
  List.count_occ Query_eq_dec log q.

(** The lookup that the accessor of kind [k] makes in [w] when its slot is
    not cached fails.  (The pointer accessor has no lookup of its own on
    the domain, and drops the errors of its reverse lookups: [false].) *)
Definition fetch_fails (N : Net) (k : Kind) (w : World) : bool :=
  let log := calls w in
  let name := domain (rec w) in
  match k with
  | KA => negb (err_is_nil (snd (LookupIP N log name)))
  | KCNAME => negb (err_is_nil (snd (LookupCNAME N log name)))
  | KMX => negb (err_is_nil (snd (LookupMX N log name)))
  | KNS => negb (err_is_nil (snd (LookupNS N log name)))
  | KPTR => false
  | KTXT => negb (err_is_nil (snd (LookupTXT N log name)))
  end.

(** The lookup that the accessor of kind [k] makes in [w] when its slot is
    not cached succeeds with an answer that leaves the slot cached: at
    least one address, a name that is not empty, a list of text records
    that is not nil, any list of mail exchanges or name servers (they are
    copied into a slice made for them).  ([false] for the pointer accessor,
    as in [fetch_fails].) *)
Definition fetch_fills (N : Net) (k : Kind) (w : World) : bool :=
  let log := calls w in
  let name := domain (rec w) in
  match k with
  | KA =>
      let (r, e) := LookupIP N log name in
      err_is_nil e && negb (Nat.eqb (len r) 0)
  | KCNAME =>
      let (r, e) := LookupCNAME N log name in
      err_is_nil e && negb (String.eqb r "")
  | KMX => err_is_nil (snd (LookupMX N log name))
  | KNS => err_is_nil (snd (LookupNS N log name))
  | KPTR => false
  | KTXT =>
      let (r, e) := LookupTXT N log name in
      err_is_nil e && negb (is_nil r)
  end.

(** The keys of the map of [GetAllRecords]. *)
Definition all_keys : gset string :=
  {[ "A records"; "CNAME records"; "MX records"; "NS records";
     "PTR records"; "TXT records" ]}.

(** [keeps d d']: the domain is the same and every slot that was cached in
    [d] holds the same value in [d']. *)
Definition keeps (d d' : DnsRecord) : Prop :=
  domain d' = domain d /\
  forall k, cached k d = true -> slot k d' = slot k d.

(** What is known of a call that has returned [v] in [w'] from [w]: [v] is
    the value [get] of the slot, cached slots and the domain are as before,
    a free mutex is free again, and at most the call [q] was made. *)
Definition settled {A : Type} (get : DnsRecord -> A) (q : Query)
    (w : World) (v : A) (w' : World) : Prop :=
  v = get (rec w') /\
  keeps (rec w) (rec w') /\
  (mutex w = false -> mutex w' = false) /\
  (w' = w \/ calls w' = q :: calls w).

(** The names that the loop of [GetPtrRecords] collects over a list of
    addresses when its first lookup is answered on the log [log]: the
    answers in the order of the addresses, each one kept whatever the error
    that came with it. *)
Fixpoint gathered (N : Net) (log : list Query) (addrs : list IP) : list string :=
  match addrs with
  | [] => []
  | v :: rest =>
      elems (fst (LookupAddr N log (IP_String N v)))
      ++ gathered N (QAddr (IP_String N v) :: log) rest
  end.

(** The key under which [GetAllRecords] files each kind. *)
Definition key (k : Kind) : string :=
  match k with
  | KA => "A records"
  | KCNAME => "CNAME records"
  | KMX => "MX records"
  | KNS => "NS records"
  | KPTR => "PTR records"
  | KTXT => "TXT records"
  end.

(** The map of the six slots of a record, built as [GetAllRecords] builds
    its result. *)
Definition records_of (d : DnsRecord) : gmap string Value :=
  <["TXT records" := VStrings (txtRecords d)]>
    (<["PTR records" := VStrings (ptrRecords d)]>
       (<["NS records" := VNSs (nsRecords d)]>
          (<["MX records" := VMXs (mxRecords d)]>
             (<["CNAME records" := VString (cnameRecords d)]>
                (<["A records" := VIPs (aRecords d)]> ∅))))).

(** A call that is not [GetAllRecords] and cannot write the slot of kind
    [k]: an accessor of another kind, the pointer accessor excepted when
    [k] is the address slot. *)
Definition leaves_alone (k : Kind) (c : Call) : Prop :=
  match c with
  | GetAll => False
  | Get k' => k' <> k /\ (k' = KPTR -> k <> KA)
  end.

(** What one returning call of the accessor of kind [k] may have done
    between [w] and [w']: nothing at all when its slot was cached;
    otherwise one resolver call for its kind, with every other slot as it
    was. *)
Definition wrote_only (k : Kind) (w w' : World) : Prop :=
  if cached k (rec w) then w' = w
  else
    calls w' = query k (domain (rec w)) :: calls w /\
    forall k', k' <> k -> slot k' (rec w') = slot k' (rec w).

(** * Properties *)

(** ** Slices *)

Lemma append_nil_elems {A : Type} (xs : slice A) :
  elems (append nil_slice xs) = elems xs.
Proof. unfold append, nil_slice. destruct (elems xs); reflexivity. Qed.

Lemma append_nil_is_nil {A : Type} (xs : slice A) :
  is_nil (append nil_slice xs) = Nat.eqb (len xs) 0.
Proof. unfold append, nil_slice, len. destruct (elems xs); reflexivity. Qed.

Lemma append_keeps_cached {A : Type} (s xs : slice A) :
  is_nil s = false -> is_nil (append s xs) = false.
Proof. destruct s; [reflexivity | discriminate]. Qed.

(** The copy loop overwrites the zero values one index after the other. *)
Lemma copy_from_app {A : Type} (zero : A) (src done : list A) :
  copy_from src (length done) (Some (done ++ replicate (length src) zero))
  = Some (done ++ src).
Proof.
  revert done. induction src as [|x src IH]; intros done; simpl.
  - reflexivity.
  - replace (length done) with (length done + 0) at 2 by lia.
    rewrite insert_app_r. simpl.
    specialize (IH (done ++ [x])).
    rewrite length_app in IH. simpl in IH.
    replace (length done + 1) with (S (length done)) in IH by lia.
    rewrite <- !app_assoc in IH. exact IH.
Qed.

Lemma copy_make {A : Type} (zero : A) (src : slice A) :
  copy_from (elems src) 0 (make zero (len src)) = Some (elems src).
Proof. exact (copy_from_app zero (elems src) []). Qed.

(** ** The accessors, case by case *)

Ltac go_unfold :=
  unfold bind, ret, load, store, ask, mutex_Lock, mutex_Unlock; simpl.

Section Cases.

Variable N : Net.

(** *** Served from the slot: no call, no change *)

Lemma GetARecords_hit w :
  is_nil (aRecords (rec w)) = false ->
  GetARecords N w = Returned (aRecords (rec w)) w.
Proof. intros H. unfold GetARecords. go_unfold. rewrite H. reflexivity. Qed.

Lemma GetCnameRecords_hit w :
  String.eqb (cnameRecords (rec w)) "" = false ->
  GetCnameRecords N w = Returned (cnameRecords (rec w)) w.
Proof. intros H. unfold GetCnameRecords. go_unfold. rewrite H. reflexivity. Qed.

Lemma GetMxRecords_hit w :
  is_nil (mxRecords (rec w)) = false ->
  GetMxRecords N w = Returned (mxRecords (rec w)) w.
Proof. intros H. unfold GetMxRecords. go_unfold. rewrite H. reflexivity. Qed.

Lemma GetNsRecords_hit w :
  is_nil (nsRecords (rec w)) = false ->
  GetNsRecords N w = Returned (nsRecords (rec w)) w.
Proof. intros H. unfold GetNsRecords. go_unfold. rewrite H. reflexivity. Qed.

Lemma GetPtrRecords_hit w :
  is_nil (ptrRecords (rec w)) = false ->
  GetPtrRecords N w = Returned (ptrRecords (rec w)) w.
Proof. intros H. unfold GetPtrRecords. go_unfold. rewrite H. reflexivity. Qed.

Lemma GetTxtRecords_hit w :
  is_nil (txtRecords (rec w)) = false ->
  GetTxtRecords N w = Returned (txtRecords (rec w)) w.
Proof. intros H. unfold GetTxtRecords. go_unfold. rewrite H. reflexivity. Qed.

(** *** The lookup succeeds *)

Lemma GetARecords_fetch w r :
  is_nil (aRecords (rec w)) = true ->
  mutex w = false ->
  LookupIP N (calls w) (domain (rec w)) = (r, None) ->
  GetARecords N w
  = Returned (append nil_slice r)
      (mkWorld (set_aRecords (append nil_slice r) (rec w)) false
         (QIP (domain (rec w)) :: calls w)).
Proof.
  intros Hs Hm Hr. unfold GetARecords. go_unfold.
  rewrite Hs, Hr, Hm. simpl.
  destruct (aRecords (rec w)); [discriminate | reflexivity].
Qed.

Lemma GetCnameRecords_fetch w r :
  String.eqb (cnameRecords (rec w)) "" = true ->
  mutex w = false ->
  LookupCNAME N (calls w) (domain (rec w)) = (r, None) ->
  GetCnameRecords N w
  = Returned r
      (mkWorld (set_cnameRecords r (rec w)) false
         (QCNAME (domain (rec w)) :: calls w)).
Proof.
  intros Hs Hm Hr. unfold GetCnameRecords. go_unfold.
  rewrite Hs, Hr, Hm. reflexivity.
Qed.

Lemma GetMxRecords_fetch w r :
  is_nil (mxRecords (rec w)) = true ->
  mutex w = false ->
  LookupMX N (calls w) (domain (rec w)) = (r, None) ->
  GetMxRecords N w
  = Returned (Some (elems r))
      (mkWorld (set_mxRecords (Some (elems r)) (rec w)) false
         (QMX (domain (rec w)) :: calls w)).
Proof.
  intros Hs Hm Hr. unfold GetMxRecords. go_unfold.
  rewrite Hs, Hr, Hm. simpl.
  unfold set_mxRecords. simpl. rewrite copy_make. reflexivity.
Qed.

Lemma GetNsRecords_fetch w r :
  is_nil (nsRecords (rec w)) = true ->
  mutex w = false ->
  LookupNS N (calls w) (domain (rec w)) = (r, None) ->
  GetNsRecords N w
  = Returned (Some (elems r))
      (mkWorld (set_nsRecords (Some (elems r)) (rec w)) false
         (QNS (domain (rec w)) :: calls w)).
Proof.
  intros Hs Hm Hr. unfold GetNsRecords. go_unfold.
  rewrite Hs, Hr, Hm. simpl.
  unfold set_nsRecords. simpl. rewrite copy_make. reflexivity.
Qed.

Lemma GetTxtRecords_fetch w r :
  is_nil (txtRecords (rec w)) = true ->
  mutex w = false ->
  LookupTXT N (calls w) (domain (rec w)) = (r, None) ->
  GetTxtRecords N w
  = Returned r
      (mkWorld (set_txtRecords r (rec w)) false
         (QTXT (domain (rec w)) :: calls w)).
Proof.
  intros Hs Hm Hr. unfold GetTxtRecords. go_unfold.
  rewrite Hs, Hr, Hm. reflexivity.
Qed.

(** *** The lookup fails *)

Lemma GetARecords_fail w r e :
  is_nil (aRecords (rec w)) = true ->
  LookupIP N (calls w) (domain (rec w)) = (r, Some e) ->
  GetARecords N w
  = Returned (aRecords (rec w))
      (mkWorld (rec w) (mutex w) (QIP (domain (rec w)) :: calls w)).
Proof.
  intros Hs Hr. unfold GetARecords. go_unfold.
  rewrite Hs, Hr. reflexivity.
Qed.

Lemma GetMxRecords_fail w r e :
  is_nil (mxRecords (rec w)) = true ->
  LookupMX N (calls w) (domain (rec w)) = (r, Some e) ->
  GetMxRecords N w
  = Returned (mxRecords (rec w))
      (mkWorld (rec w) (mutex w) (QMX (domain (rec w)) :: calls w)).
Proof.
  intros Hs Hr. unfold GetMxRecords. go_unfold.
  rewrite Hs, Hr. reflexivity.
Qed.

Lemma GetNsRecords_fail w r e :
  is_nil (nsRecords (rec w)) = true ->
  LookupNS N (calls w) (domain (rec w)) = (r, Some e) ->
  GetNsRecords N w
  = Returned (nsRecords (rec w))
      (mkWorld (rec w) (mutex w) (QNS (domain (rec w)) :: calls w)).
Proof.
  intros Hs Hr. unfold GetNsRecords. go_unfold.
  rewrite Hs, Hr. reflexivity.
Qed.

(** With the mutex free, the unlock that follows the skipped lock is
    fatal. *)
Lemma GetCnameRecords_fail w r e :
  String.eqb (cnameRecords (rec w)) "" = true ->
  mutex w = false ->
  LookupCNAME N (calls w) (domain (rec w)) = (r, Some e) ->
  GetCnameRecords N w = Fatal UnlockOfUnlockedMutex.
Proof.
  intros Hs Hm Hr. unfold GetCnameRecords. go_unfold.
  rewrite Hs, Hr, Hm. reflexivity.
Qed.

Lemma GetTxtRecords_fail w r e :
  is_nil (txtRecords (rec w)) = true ->
  mutex w = false ->
  LookupTXT N (calls w) (domain (rec w)) = (r, Some e) ->
  GetTxtRecords N w = Fatal UnlockOfUnlockedMutex.
Proof.
  intros Hs Hm Hr. unfold GetTxtRecords. go_unfold.
  rewrite Hs, Hr, Hm. reflexivity.
Qed.

End Cases.

(** ** The reverse lookups of [GetPtrRecords] *)

Section Pointer.

Variable N : Net.

Lemma reverse_lookups_app l1 l2 :
  reverse_lookups (l1 ++ l2) = reverse_lookups l1 + reverse_lookups l2.
Proof. unfold reverse_lookups. rewrite List.filter_app, length_app. reflexivity. Qed.

Lemma reverse_lookups_asked addrs :
  reverse_lookups (List.rev (asked N addrs)) = length addrs.
Proof.
  induction addrs as [|v addrs IH]; simpl; [reflexivity|].
  rewrite reverse_lookups_app, IH. unfold reverse_lookups. simpl. lia.
Qed.

(** The loop always runs to its end: one call per address, and only the
    pointer slot is written. *)
Lemma reverse_each_runs addrs :
  forall w, exists p,
    reverse_each N addrs w
    = Returned tt
        (mkWorld (set_ptrRecords p (rec w)) (mutex w)
           (List.rev (asked N addrs) ++ calls w)).
Proof.
  induction addrs as [|v addrs IH]; intros w.
  - exists (ptrRecords (rec w)). destruct w as [[]]; reflexivity.
  - cbn [reverse_each]. unfold bind at 1. unfold ask at 1.
    destruct (LookupAddr N (calls w) (IP_String N v)) as [ptr e] eqn:Hl.
    unfold bind at 1. unfold store at 1.
    destruct (IH (mkWorld (set_ptrRecords (append (ptrRecords (rec w)) ptr) (rec w))
                    (mutex w) (QAddr (IP_String N v) :: calls w))) as [p Hp].
    exists p. cbn [rec mutex calls]. rewrite Hp. simpl. rewrite <- app_assoc. reflexivity.
Qed.

(** First call with the addresses already held: one pass over them. *)
Lemma GetPtrRecords_held w :
  is_nil (ptrRecords (rec w)) = true ->
  is_nil (aRecords (rec w)) = false ->
  exists p,
    GetPtrRecords N w
    = Returned p
        (mkWorld (set_ptrRecords p (rec w)) (mutex w)
           (List.rev (asked N (elems (aRecords (rec w)))) ++ calls w)).
Proof.
  intros Hp Ha.
  destruct (reverse_each_runs (elems (aRecords (rec w))) w) as [p Hrun].
  exists p. unfold GetPtrRecords. go_unfold. rewrite Hp, Ha. simpl.
  rewrite Hrun. reflexivity.
Qed.

(** First call with the addresses still to fetch: once [GetARecords] has
    returned, two passes over what it left in the slot. *)
Lemma GetPtrRecords_fetched w v w1 :
  is_nil (ptrRecords (rec w)) = true ->
  is_nil (aRecords (rec w)) = true ->
  GetARecords N w = Returned v w1 ->
  exists p,
    GetPtrRecords N w
    = Returned p
        (mkWorld (set_ptrRecords p (rec w1)) (mutex w1)
           (List.rev (asked N (elems (aRecords (rec w1))))
            ++ List.rev (asked N (elems (aRecords (rec w1)))) ++ calls w1)).
Proof.
  intros Hp Ha Hget.
  destruct (reverse_each_runs (elems (aRecords (rec w1))) w1) as [p1 Hrun1].
  set (w2 := mkWorld (set_ptrRecords p1 (rec w1)) (mutex w1)
               (List.rev (asked N (elems (aRecords (rec w1)))) ++ calls w1)) in *.
  destruct (reverse_each_runs (elems (aRecords (rec w2))) w2) as [p2 Hrun2].
  exists p2. unfold GetPtrRecords. go_unfold. rewrite Hp, Ha. simpl.
  rewrite Hget. rewrite Hrun1. fold w2. rewrite Hrun2. reflexivity.
Qed.

Lemma GetPtrRecords_fetch_fatal w f :
  is_nil (ptrRecords (rec w)) = true ->
  is_nil (aRecords (rec w)) = true ->
  GetARecords N w = Fatal f ->
  GetPtrRecords N w = Fatal f.
Proof.
  intros Hp Ha Hget. unfold GetPtrRecords. go_unfold.
  rewrite Hp, Ha. simpl. rewrite Hget. reflexivity.
Qed.

End Pointer.

(** ** What a call that returns leaves behind *)

Lemma cached_slot k d d' : slot k d' = slot k d -> cached k d' = cached k d.
Proof. destruct k; simpl; intros H; injection H as ->; reflexivity. Qed.

Lemma keeps_refl d : keeps d d.
Proof. split; [reflexivity | intros; reflexivity]. Qed.

Lemma keeps_trans d1 d2 d3 : keeps d1 d2 -> keeps d2 d3 -> keeps d1 d3.
Proof.
  intros [Hd12 Hs12] [Hd23 Hs23]. split; [congruence|].
  intros k Hk. rewrite <- (Hs12 k Hk). apply Hs23.
  rewrite (cached_slot k d1 d2); [exact Hk | apply Hs12, Hk].
Qed.

Lemma keeps_set_a d v : is_nil (aRecords d) = true -> keeps d (set_aRecords v d).
Proof.
  intros H. split; [reflexivity|].
  intros [] Hk; simpl in *; try reflexivity. rewrite H in Hk. discriminate.
Qed.

Lemma keeps_set_cname d v :
  String.eqb (cnameRecords d) "" = true -> keeps d (set_cnameRecords v d).
Proof.
  intros H. split; [reflexivity|].
  intros [] Hk; simpl in *; try reflexivity. rewrite H in Hk. discriminate.
Qed.

Lemma keeps_set_mx d v : is_nil (mxRecords d) = true -> keeps d (set_mxRecords v d).
Proof.
  intros H. split; [reflexivity|].
  intros [] Hk; simpl in *; try reflexivity. rewrite H in Hk. discriminate.
Qed.

Lemma keeps_set_ns d v : is_nil (nsRecords d) = true -> keeps d (set_nsRecords v d).
Proof.
  intros H. split; [reflexivity|].
  intros [] Hk; simpl in *; try reflexivity. rewrite H in Hk. discriminate.
Qed.

Lemma keeps_set_ptr d v : is_nil (ptrRecords d) = true -> keeps d (set_ptrRecords v d).
Proof.
  intros H. split; [reflexivity|].
  intros [] Hk; simpl in *; try reflexivity. rewrite H in Hk. discriminate.
Qed.

Lemma keeps_set_txt d v : is_nil (txtRecords d) = true -> keeps d (set_txtRecords v d).
Proof.
  intros H. split; [reflexivity|].
  intros [] Hk; simpl in *; try reflexivity. rewrite H in Hk. discriminate.
Qed.

Ltac settle :=
  intros H; inversion H; subst; clear H; cbn [rec mutex calls];
  repeat split; intros; cbn [rec mutex calls];
  first [ reflexivity
        | assumption
        | apply keeps_refl
        | apply keeps_set_a; assumption
        | apply keeps_set_cname; assumption
        | apply keeps_set_mx; assumption
        | apply keeps_set_ns; assumption
        | apply keeps_set_txt; assumption
        | congruence
        | (left; reflexivity)
        | (right; reflexivity)
        | idtac ].

Section Returns.

Variable N : Net.

Lemma GetARecords_returns w v w' :
  GetARecords N w = Returned v w' ->
  settled aRecords (QIP (domain (rec w))) w v w'.
Proof.
  destruct (is_nil (aRecords (rec w))) eqn:Hs.
  - destruct (LookupIP N (calls w) (domain (rec w))) as [r [e|]] eqn:Hr.
    + rewrite (GetARecords_fail N w r e Hs Hr). settle.
    + destruct (mutex w) eqn:Hm.
      * unfold GetARecords. go_unfold. rewrite Hs, Hr, Hm. discriminate.
      * rewrite (GetARecords_fetch N w r Hs Hm Hr). settle.
  - rewrite (GetARecords_hit N w Hs). settle.
Qed.

Lemma GetMxRecords_returns w v w' :
  GetMxRecords N w = Returned v w' ->
  settled mxRecords (QMX (domain (rec w))) w v w'.
Proof.
  destruct (is_nil (mxRecords (rec w))) eqn:Hs.
  - destruct (LookupMX N (calls w) (domain (rec w))) as [r [e|]] eqn:Hr.
    + rewrite (GetMxRecords_fail N w r e Hs Hr). settle.
    + destruct (mutex w) eqn:Hm.
      * unfold GetMxRecords. go_unfold. rewrite Hs, Hr, Hm. discriminate.
      * rewrite (GetMxRecords_fetch N w r Hs Hm Hr). settle.
  - rewrite (GetMxRecords_hit N w Hs). settle.
Qed.

Lemma GetNsRecords_returns w v w' :
  GetNsRecords N w = Returned v w' ->
  settled nsRecords (QNS (domain (rec w))) w v w'.
Proof.
  destruct (is_nil (nsRecords (rec w))) eqn:Hs.
  - destruct (LookupNS N (calls w) (domain (rec w))) as [r [e|]] eqn:Hr.
    + rewrite (GetNsRecords_fail N w r e Hs Hr). settle.
    + destruct (mutex w) eqn:Hm.
      * unfold GetNsRecords. go_unfold. rewrite Hs, Hr, Hm. discriminate.
      * rewrite (GetNsRecords_fetch N w r Hs Hm Hr). settle.
  - rewrite (GetNsRecords_hit N w Hs). settle.
Qed.

(** The two accessors that unlock outside the test return from a miss
    only after a lookup that succeeded, or by unlocking a mutex that was
    held at entry. *)
Lemma GetCnameRecords_returns w v w' :
  GetCnameRecords N w = Returned v w' ->
  settled cnameRecords (QCNAME (domain (rec w))) w v w'.
Proof.
  destruct (String.eqb (cnameRecords (rec w)) "") eqn:Hs.
  - destruct (LookupCNAME N (calls w) (domain (rec w))) as [r [e|]] eqn:Hr;
      destruct (mutex w) eqn:Hm.
    + unfold GetCnameRecords. go_unfold. rewrite Hs, Hr, Hm. settle.
    + rewrite (GetCnameRecords_fail N w r e Hs Hm Hr). discriminate.
    + unfold GetCnameRecords. go_unfold. rewrite Hs, Hr, Hm. discriminate.
    + rewrite (GetCnameRecords_fetch N w r Hs Hm Hr). settle.
  - rewrite (GetCnameRecords_hit N w Hs). settle.
Qed.

Lemma GetTxtRecords_returns w v w' :
  GetTxtRecords N w = Returned v w' ->
  settled txtRecords (QTXT (domain (rec w))) w v w'.
Proof.
  destruct (is_nil (txtRecords (rec w))) eqn:Hs.
  - destruct (LookupTXT N (calls w) (domain (rec w))) as [r [e|]] eqn:Hr;
      destruct (mutex w) eqn:Hm.
    + unfold GetTxtRecords. go_unfold. rewrite Hs, Hr, Hm. settle.
    + rewrite (GetTxtRecords_fail N w r e Hs Hm Hr). discriminate.
    + unfold GetTxtRecords. go_unfold. rewrite Hs, Hr, Hm. discriminate.
    + rewrite (GetTxtRecords_fetch N w r Hs Hm Hr). settle.
  - rewrite (GetTxtRecords_hit N w Hs). settle.
Qed.

End Returns.

Section Frames.

Variable N : Net.

Lemma set_aRecords_same d : set_aRecords (aRecords d) d = d.
Proof. destruct d; reflexivity. Qed.

(** [GetARecords] writes no other field than its own slot. *)
Lemma GetARecords_writes_a w v w' :
  GetARecords N w = Returned v w' ->
  exists x, rec w' = set_aRecords x (rec w).
Proof.
  destruct (is_nil (aRecords (rec w))) eqn:Hs.
  - destruct (LookupIP N (calls w) (domain (rec w))) as [r [e|]] eqn:Hr.
    + rewrite (GetARecords_fail N w r e Hs Hr). intros H; inversion H; subst.
      exists (aRecords (rec w)). symmetry. apply set_aRecords_same.
    + destruct (mutex w) eqn:Hm.
      * unfold GetARecords. go_unfold. rewrite Hs, Hr, Hm. discriminate.
      * rewrite (GetARecords_fetch N w r Hs Hm Hr). intros H; inversion H; subst.
        eexists. reflexivity.
  - rewrite (GetARecords_hit N w Hs). intros H; inversion H; subst.
    exists (aRecords (rec w')). symmetry. apply set_aRecords_same.
Qed.

Lemma GetPtrRecords_returns w v w' :
  GetPtrRecords N w = Returned v w' ->
  v = ptrRecords (rec w') /\
  keeps (rec w) (rec w') /\
  (mutex w = false -> mutex w' = false).
Proof.
  destruct (is_nil (ptrRecords (rec w))) eqn:Hp.
  - destruct (is_nil (aRecords (rec w))) eqn:Ha.
    + destruct (GetARecords N w) as [v1 w1|f] eqn:Hget.
      * destruct (GetPtrRecords_fetched N w v1 w1 Hp Ha Hget) as [p ->].
        destruct (GetARecords_returns N w v1 w1 Hget) as (_ & Hk & Hm & _).
        destruct (GetARecords_writes_a w v1 w1 Hget) as [x Hx].
        intros H; inversion H; subst; clear H. cbn [rec mutex calls].
        split; [reflexivity | split; [| exact Hm]].
        eapply keeps_trans; [exact Hk|].
        apply keeps_set_ptr. rewrite Hx. exact Hp.
      * rewrite (GetPtrRecords_fetch_fatal N w f Hp Ha Hget). discriminate.
    + destruct (GetPtrRecords_held N w Hp Ha) as [p ->].
      intros H; inversion H; subst; clear H. cbn [rec mutex calls].
      split; [reflexivity | split; [| tauto]].
      apply keeps_set_ptr. exact Hp.
  - rewrite (GetPtrRecords_hit N w Hp).
    intros H; inversion H; subst; clear H.
    split; [reflexivity | split; [apply keeps_refl | tauto]].
Qed.

(** Inversion of a bind that returned. *)
Lemma bind_returned {A B : Type} (m : Go A) (k : A -> Go B) w b w' :
  bind m k w = Returned b w' ->
  exists a w1, m w = Returned a w1 /\ k a w1 = Returned b w'.
Proof.
  unfold bind. destruct (m w) as [a w1|f]; [|discriminate].
  intros H. exists a, w1. split; [reflexivity | exact H].
Qed.

Lemma GetAllRecords_returns w m w' :
  GetAllRecords N w = Returned m w' ->
  dom m = all_keys /\
  keeps (rec w) (rec w') /\
  (mutex w = false -> mutex w' = false).
Proof.
  unfold GetAllRecords. intros H.
  apply bind_returned in H as (a & w1 & Ha & H).
  apply bind_returned in H as (c & w2 & Hc & H).
  apply bind_returned in H as (mx & w3 & Hmx & H).
  apply bind_returned in H as (n & w4 & Hn & H).
  apply bind_returned in H as (p & w5 & Hp & H).
  apply bind_returned in H as (t & w6 & Ht & H).
  inversion H; subst; clear H.
  apply GetARecords_returns in Ha as (_ & Ka & Ma & _).
  apply GetCnameRecords_returns in Hc as (_ & Kc & Mc & _).
  apply GetMxRecords_returns in Hmx as (_ & Kmx & Mmx & _).
  apply GetNsRecords_returns in Hn as (_ & Kn & Mn & _).
  apply GetPtrRecords_returns in Hp as (_ & Kp & Mp).
  apply GetTxtRecords_returns in Ht as (_ & Kt & Mt & _).
  split; [| split].
  - rewrite !dom_insert_L, dom_empty_L. unfold all_keys. set_solver.
  - eapply keeps_trans; [exact Ka|]. eapply keeps_trans; [exact Kc|].
    eapply keeps_trans; [exact Kmx|]. eapply keeps_trans; [exact Kn|].
    eapply keeps_trans; [exact Kp|]. exact Kt.
  - intros Hm. apply Mt, Mp, Mn, Mmx, Mc, Ma, Hm.
Qed.

Lemma accessor_returns k w v w' :
  accessor N k w = Returned v w' ->
  v = slot k (rec w') /\
  keeps (rec w) (rec w') /\
  (mutex w = false -> mutex w' = false).
Proof.
  destruct k; simpl; intros H;
    apply bind_returned in H as (x & w1 & Hx & H);
    inversion H; subst; clear H.
  - apply GetARecords_returns in Hx as (-> & K & M & _). auto.
  - apply GetCnameRecords_returns in Hx as (-> & K & M & _). auto.
  - apply GetMxRecords_returns in Hx as (-> & K & M & _). auto.
  - apply GetNsRecords_returns in Hx as (-> & K & M & _). auto.
  - apply GetPtrRecords_returns in Hx as (-> & K & M). auto.
  - apply GetTxtRecords_returns in Hx as (-> & K & M & _). auto.
Qed.

(** A cached slot is returned as it is, with no call and no write. *)
Lemma accessor_hit k w :
  cached k (rec w) = true ->
  accessor N k w = Returned (slot k (rec w)) w.
Proof.
  intros H.
  destruct k; simpl in *; apply negb_true_iff in H; unfold bind.
  - rewrite (GetARecords_hit N w H). reflexivity.
  - rewrite (GetCnameRecords_hit N w H). reflexivity.
  - rewrite (GetMxRecords_hit N w H). reflexivity.
  - rewrite (GetNsRecords_hit N w H). reflexivity.
  - rewrite (GetPtrRecords_hit N w H). reflexivity.
  - rewrite (GetTxtRecords_hit N w H). reflexivity.
Qed.

Lemma perform_returns c w w' :
  perform N c w = Returned tt w' ->
  keeps (rec w) (rec w') /\ (mutex w = false -> mutex w' = false).
Proof.
  destruct c as [k|]; simpl; intros H;
    apply bind_returned in H as (x & w1 & Hx & H);
    inversion H; subst; clear H.
  - apply accessor_returns in Hx as (_ & K & M). auto.
  - apply GetAllRecords_returns in Hx as (_ & K & M). auto.
Qed.

Lemma reaches_keeps w cs w' :
  reaches N w cs w' ->
  keeps (rec w) (rec w') /\ (mutex w = false -> mutex w' = false).
Proof.
  induction 1 as [w | w c w1 cs w2 Hc _ [IHk IHm]].
  - split; [apply keeps_refl | tauto].
  - apply perform_returns in Hc as [K M].
    split; [eapply keeps_trans; eassumption | auto].
Qed.

End Frames.

(** ** The search types of the command line *)

Lemma search_missed s options :
  search s options false = true <-> In s options.
Proof.
  induction options as [|v rest IH]; simpl.
  - split; [discriminate | tauto].
  - destruct (String.eqb_spec s v) as [->|Hne]; simpl.
    + split; auto.
    + rewrite IH. split; [auto | intros [Heq|Hin]; [congruence | exact Hin]].
Qed.

Lemma search_first s v rest found :
  search s (v :: rest) found = true <-> In s (v :: rest).
Proof.
  simpl. destruct (String.eqb_spec s v) as [->|Hne]; simpl.
  - split; auto.
  - rewrite search_missed. split; [auto | intros [Heq|Hin]; [congruence | exact Hin]].
Qed.

(** C10: [isValidSearchType s] is [true] exactly when [s] is one of "a",
    "all", "cname", "mx", "ns", "ptr", "txt"; for the empty string it is
    [false]. *)
Theorem isValidSearchType_exact (s : string) :
  (isValidSearchType s = true <->
   s = "a" \/ s = "all" \/ s = "cname" \/ s = "mx" \/ s = "ns" \/ s = "ptr" \/ s = "txt")
  /\ isValidSearchType "" = false.
Proof.
  split; [| reflexivity].
  unfold isValidSearchType, searchOptions. rewrite search_first. simpl.
  intuition congruence.
Qed.

(** ** The domain and the cached slots over any run of calls *)

(** C8: [NewDnsRecord] stores the domain it is given as it is, and after
    any sequence of accessor calls on the instance the domain field is
    still that string. *)
Theorem domain_never_mutated (N : Net) (domainName : string) (cs : list Call) (w : World) :
  reaches N (start domainName) cs w ->
  domain (NewDnsRecord domainName) = domainName /\ domain (rec w) = domainName.
Proof.
  intros H. split; [reflexivity|].
  apply reaches_keeps in H as [[Hd _] _]. exact Hd.
Qed.

Lemma domain_never_mutated_witness :
  exists w,
    reaches answering (start "Example.COM.") [Get KA; Get KPTR; GetAll; Get KTXT] w /\
    domain (rec w) = "Example.COM.".
Proof.
  eexists. split.
  - eapply reaches_cons; [vm_compute; reflexivity|].
    eapply reaches_cons; [vm_compute; reflexivity|].
    eapply reaches_cons; [vm_compute; reflexivity|].
    eapply reaches_cons; [vm_compute; reflexivity|].
    apply reaches_nil.
  - eapply (domain_never_mutated answering "Example.COM."
              [Get KA; Get KPTR; GetAll; Get KTXT]).
    eapply reaches_cons; [vm_compute; reflexivity|].
    eapply reaches_cons; [vm_compute; reflexivity|].
    eapply reaches_cons; [vm_compute; reflexivity|].
    eapply reaches_cons; [vm_compute; reflexivity|].
    apply reaches_nil.
Defined.

(** C4, amended: a slot that a resolution has left cached (not nil; not the
    empty name for the canonical name) holds the same value after any
    sequence of later calls of any accessor, and its own accessor keeps
    returning that value, without asking the resolver and without
    writing. *)
Theorem populated_slot_never_overwritten
    (N : Net) (k : Kind) (w : World) (cs : list Call) (w' : World) :
  cached k (rec w) = true ->
  reaches N w cs w' ->
  slot k (rec w') = slot k (rec w) /\
  accessor N k w' = Returned (slot k (rec w)) w'.
Proof.
  intros Hc Hr.
  apply reaches_keeps in Hr as [[_ Hs] _].
  specialize (Hs k Hc). split; [exact Hs|].
  rewrite <- Hs. apply accessor_hit.
  rewrite (cached_slot k (rec w) (rec w') Hs). exact Hc.
Qed.

Lemma populated_slot_never_overwritten_witness :
  let w0 := mkWorld (set_aRecords (Some [example_ip]) (NewDnsRecord "example.com"))
              false [QIP "example.com"] in
  GetARecords answering (start "example.com") = Returned (Some [example_ip]) w0 /\
  exists w',
    reaches answering_empty w0 [Get KA; Get KPTR; GetAll; Get KA] w' /\
    slot KA (rec w') = VIPs (Some [example_ip]) /\
    accessor answering_empty KA w' = Returned (VIPs (Some [example_ip])) w'.
Proof.
  intros w0. split; [reflexivity|].
  eexists. split.
  - eapply reaches_cons; [vm_compute; reflexivity|].
    eapply reaches_cons; [vm_compute; reflexivity|].
    eapply reaches_cons; [vm_compute; reflexivity|].
    eapply reaches_cons; [vm_compute; reflexivity|].
    apply reaches_nil.
  - eapply (populated_slot_never_overwritten answering_empty KA w0
              [Get KA; Get KPTR; GetAll; Get KA]).
    + reflexivity.
    + eapply reaches_cons; [vm_compute; reflexivity|].
      eapply reaches_cons; [vm_compute; reflexivity|].
      eapply reaches_cons; [vm_compute; reflexivity|].
      eapply reaches_cons; [vm_compute; reflexivity|].
      apply reaches_nil.
Defined.

(** C4, as stated, fails when the first resolution without error leaves
    Go's zero value in the slot: no address, the empty canonical name, a
    nil list of texts.  The slot is then still empty for the next call,
    which asks again, stores the new answer and returns it: the first
    successful resolution has not won. *)
Lemma first_success_does_not_win :
  (exists w1 w2,
     LookupIP empty_at_first [] "example.com" = (Some [], None) /\
     accessor empty_at_first KA (start "example.com") = Returned (VIPs nil_slice) w1 /\
     accessor empty_at_first KA w1 = Returned (VIPs (Some [example_ip])) w2 /\
     slot KA (rec w2) <> slot KA (rec w1)) /\
  (exists w1 w2,
     LookupCNAME empty_at_first [] "example.com" = ("", None) /\
     accessor empty_at_first KCNAME (start "example.com") = Returned (VString "") w1 /\
     accessor empty_at_first KCNAME w1 = Returned (VString "example.com.") w2 /\
     slot KCNAME (rec w2) <> slot KCNAME (rec w1)) /\
  (exists w1 w2,
     LookupTXT empty_at_first [] "example.com" = (nil_slice, None) /\
     accessor empty_at_first KTXT (start "example.com") = Returned (VStrings nil_slice) w1 /\
     accessor empty_at_first KTXT w1 = Returned (VStrings (Some ["v=spf1 -all"])) w2 /\
     slot KTXT (rec w2) <> slot KTXT (rec w1)).
Proof.
  split; [| split]; eexists _, _;
    (split; [reflexivity|]);
    (split; [vm_compute; reflexivity|]);
    (split; [vm_compute; reflexivity|]);
    discriminate.
Qed.

(** ** The pointer accessor *)

Section PointerCalls.

Variable N : Net.

(** With the addresses already in their slot, a first call asks one
    reverse lookup per address, in the order of the addresses. *)
Lemma GetPtrRecords_held_lookups w :
  is_nil (ptrRecords (rec w)) = true ->
  is_nil (aRecords (rec w)) = false ->
  exists v w',
    GetPtrRecords N w = Returned v w' /\
    calls w' = List.rev (asked N (elems (aRecords (rec w)))) ++ calls w /\
    reverse_lookups (calls w') = reverse_lookups (calls w) + len (aRecords (rec w)).
Proof.
  intros Hp Ha. destruct (GetPtrRecords_held N w Hp Ha) as [p Hrun].
  eexists _, _. split; [exact Hrun|]. cbn [calls]. split; [reflexivity|].
  rewrite reverse_lookups_app, reverse_lookups_asked. unfold len. lia.
Qed.

(** With the addresses still to fetch, a first call asks for them and
    then runs both loops over what it got. *)
Lemma GetPtrRecords_fetched_lookups w r :
  is_nil (ptrRecords (rec w)) = true ->
  is_nil (aRecords (rec w)) = true ->
  mutex w = false ->
  LookupIP N (calls w) (domain (rec w)) = (r, None) ->
  exists v w',
    GetPtrRecords N w = Returned v w' /\
    calls w' = List.rev (asked N (elems r)) ++ List.rev (asked N (elems r))
               ++ QIP (domain (rec w)) :: calls w.
Proof.
  intros Hp Ha Hm Hr.
  pose proof (GetARecords_fetch N w r Ha Hm Hr) as Hget.
  destruct (GetPtrRecords_fetched N w _ _ Hp Ha Hget) as [p Hrun].
  eexists _, _. split; [exact Hrun|]. cbn [calls rec].
  unfold set_aRecords. cbn [aRecords]. rewrite append_nil_elems. reflexivity.
Qed.

(** When [GetARecords] leaves no address, neither loop asks anything. *)
Lemma GetPtrRecords_fetched_none w v w1 :
  is_nil (ptrRecords (rec w)) = true ->
  is_nil (aRecords (rec w)) = true ->
  GetARecords N w = Returned v w1 ->
  elems (aRecords (rec w1)) = [] ->
  GetPtrRecords N w = Returned (ptrRecords (rec w1)) w1.
Proof.
  intros Hp Ha Hget Hnil. unfold GetPtrRecords. go_unfold.
  rewrite Hp, Ha. simpl. rewrite Hget. simpl. rewrite Hnil.
  cbn [reverse_each]. unfold ret. rewrite Hnil. reflexivity.
Qed.

End PointerCalls.

(** C7: when the pointer and address slots are empty and the address
    resolver succeeds with an empty list, [GetPtrRecords] returns an empty
    sequence after the address lookup alone: no reverse lookup is made. *)
Theorem GetPtrRecords_no_address (N : Net) (w : World) (r : slice IP) :
  is_nil (ptrRecords (rec w)) = true ->
  is_nil (aRecords (rec w)) = true ->
  mutex w = false ->
  LookupIP N (calls w) (domain (rec w)) = (r, None) ->
  len r = 0 ->
  exists v w',
    GetPtrRecords N w = Returned v w' /\
    len v = 0 /\
    calls w' = QIP (domain (rec w)) :: calls w /\
    reverse_lookups (calls w') = reverse_lookups (calls w).
Proof.
  intros Hp Ha Hm Hr Hlen.
  assert (Hnil : elems r = []) by (apply length_zero_iff_nil; exact Hlen).
  pose proof (GetARecords_fetch N w r Ha Hm Hr) as Hget.
  eexists _, _. split.
  - apply (GetPtrRecords_fetched_none N w _ _ Hp Ha Hget).
    cbn [rec]. unfold set_aRecords. cbn [aRecords].
    rewrite append_nil_elems. exact Hnil.
  - cbn [rec calls]. unfold set_aRecords. cbn [ptrRecords].
    split; [| split; reflexivity].
    destruct (ptrRecords (rec w)); [discriminate | reflexivity].
Qed.

Lemma GetPtrRecords_no_address_witness :
  exists w',
    GetPtrRecords answering_empty (start "example.com") = Returned nil_slice w' /\
    calls w' = [QIP "example.com"] /\
    reverse_lookups (calls w') = 0.
Proof.
  destruct (GetPtrRecords_no_address answering_empty (start "example.com") (Some []))
    as (v & w' & Hrun & Hlen & Hcalls & Hrev);
    [reflexivity | reflexivity | reflexivity | reflexivity | reflexivity |].
  exists w'. vm_compute in Hrun. inversion Hrun; subst.
  repeat split; reflexivity.
Defined.

(** C2: a first [GetPtrRecords] on an instance that has to fetch its
    addresses does not stop at one reverse lookup per address: the loop in
    the fetching branch and the loop after it both run, so a list of [n]
    addresses costs [2 * n] reverse lookups.  (With the addresses already
    held the count is [n], see [GetPtrRecords_held_lookups].) *)
Theorem GetPtrRecords_fetching_asks_twice (N : Net) (w : World) (r : slice IP) :
  is_nil (ptrRecords (rec w)) = true ->
  is_nil (aRecords (rec w)) = true ->
  mutex w = false ->
  LookupIP N (calls w) (domain (rec w)) = (r, None) ->
  exists v w',
    GetPtrRecords N w = Returned v w' /\
    reverse_lookups (calls w') = reverse_lookups (calls w) + 2 * len r.
Proof.
  intros Hp Ha Hm Hr.
  destruct (GetPtrRecords_fetched_lookups N w r Hp Ha Hm Hr) as (v & w' & Hrun & Hcalls).
  exists v, w'. split; [exact Hrun|].
  rewrite Hcalls, !reverse_lookups_app, !reverse_lookups_asked.
  change (reverse_lookups (QIP (domain (rec w)) :: calls w))
    with (reverse_lookups (calls w)).
  unfold len. lia.
Qed.

Lemma GetPtrRecords_fetching_asks_twice_witness :
  exists v w',
    GetPtrRecords answering (start "example.com") = Returned v w' /\
    len (fst (LookupIP answering [] "example.com")) = 1 /\
    reverse_lookups (calls w') = 2.
Proof.
  destruct (GetPtrRecords_fetching_asks_twice answering (start "example.com")
              (Some [example_ip]))
    as (v & w' & Hrun & Hcount);
    [reflexivity | reflexivity | reflexivity | reflexivity |].
  exists v, w'. split; [exact Hrun | split; [reflexivity | exact Hcount]].
Defined.

(** ** Lookups that fail *)

Section Failures.

Variable N : Net.

(** The two accessors whose unlock is outside the test end the process
    when the lookup fails. *)
Lemma unlock_without_lock k w :
  k = KCNAME \/ k = KTXT ->
  mutex w = false ->
  cached k (rec w) = false ->
  fetch_fails N k w = true ->
  accessor N k w = Fatal UnlockOfUnlockedMutex.
Proof.
  intros [-> | ->] Hm Hc Hf; simpl in *;
    apply negb_false_iff in Hc; apply negb_true_iff in Hf; unfold bind.
  - destruct (LookupCNAME N (calls w) (domain (rec w))) as [r [e|]] eqn:Hr;
      [| discriminate].
    rewrite (GetCnameRecords_fail N w r e Hc Hm Hr). reflexivity.
  - destruct (LookupTXT N (calls w) (domain (rec w))) as [r [e|]] eqn:Hr;
      [| discriminate].
    rewrite (GetTxtRecords_fail N w r e Hc Hm Hr). reflexivity.
Qed.

(** The three accessors that unlock inside the test return the empty
    slot and leave the record as it was. *)
Lemma failure_swallowed k w :
  k = KA \/ k = KMX \/ k = KNS ->
  cached k (rec w) = false ->
  fetch_fails N k w = true ->
  accessor N k w
  = Returned (slot k (rec w))
      (mkWorld (rec w) (mutex w) (query k (domain (rec w)) :: calls w)).
Proof.
  intros [-> | [-> | ->]] Hc Hf; simpl in *;
    apply negb_false_iff in Hc; apply negb_true_iff in Hf; unfold bind.
  - destruct (LookupIP N (calls w) (domain (rec w))) as [r [e|]] eqn:Hr;
      [| discriminate].
    rewrite (GetARecords_fail N w r e Hc Hr). reflexivity.
  - destruct (LookupMX N (calls w) (domain (rec w))) as [r [e|]] eqn:Hr;
      [| discriminate].
    rewrite (GetMxRecords_fail N w r e Hc Hr). reflexivity.
  - destruct (LookupNS N (calls w) (domain (rec w))) as [r [e|]] eqn:Hr;
      [| discriminate].
    rewrite (GetNsRecords_fail N w r e Hc Hr). reflexivity.
Qed.

(** [GetARecords] cannot end the process when the mutex is free. *)
Lemma GetARecords_total w :
  mutex w = false ->
  exists v w1, GetARecords N w = Returned v w1.
Proof.
  intros Hm. destruct (is_nil (aRecords (rec w))) eqn:Hs.
  - destruct (LookupIP N (calls w) (domain (rec w))) as [r [e|]] eqn:Hr.
    + rewrite (GetARecords_fail N w r e Hs Hr). eauto.
    + rewrite (GetARecords_fetch N w r Hs Hm Hr). eauto.
  - rewrite (GetARecords_hit N w Hs). eauto.
Qed.

(** After a failed address lookup the next call asks again, and a
    success of that second lookup is what the accessor returns. *)
Lemma GetARecords_retry w r1 e r2 :
  is_nil (aRecords (rec w)) = true ->
  mutex w = false ->
  LookupIP N (calls w) (domain (rec w)) = (r1, Some e) ->
  LookupIP N (QIP (domain (rec w)) :: calls w) (domain (rec w)) = (r2, None) ->
  exists w1 w2,
    GetARecords N w = Returned nil_slice w1 /\
    is_nil (aRecords (rec w1)) = true /\
    GetARecords N w1 = Returned (append nil_slice r2) w2 /\
    calls w2 = QIP (domain (rec w)) :: QIP (domain (rec w)) :: calls w.
Proof.
  intros Hs Hm Hr1 Hr2.
  eexists _, _. split; [| split; [| split]].
  - rewrite (GetARecords_fail N w r1 e Hs Hr1).
    destruct (aRecords (rec w)); [discriminate | reflexivity].
  - exact Hs.
  - apply GetARecords_fetch; [exact Hs | exact Hm | exact Hr2].
  - reflexivity.
Qed.

End Failures.

(** C1: what a failed lookup does to the accessor of its kind, the slot
    being empty and the mutex free.  [GetARecords], [GetMxRecords] and
    [GetNsRecords] return the empty slot and leave the record as it was;
    [GetCnameRecords] and [GetTxtRecords] do not return: they unlock the
    mutex they have not locked, which ends the process. *)
Theorem failed_lookup_outcome (N : Net) (k : Kind) (w : World) :
  mutex w = false ->
  cached k (rec w) = false ->
  fetch_fails N k w = true ->
  match k with
  | KCNAME | KTXT => accessor N k w = Fatal UnlockOfUnlockedMutex
  | _ =>
      accessor N k w
      = Returned (slot k (rec w))
          (mkWorld (rec w) false (query k (domain (rec w)) :: calls w))
  end.
Proof.
  intros Hm Hc Hf. destruct k.
  - rewrite <- Hm. apply failure_swallowed; auto.
  - apply unlock_without_lock; auto.
  - rewrite <- Hm. apply failure_swallowed; auto.
  - rewrite <- Hm. apply failure_swallowed; auto.
  - discriminate.
  - apply unlock_without_lock; auto.
Qed.

Lemma failed_lookup_outcome_witness :
  GetCnameRecords failing (start "example.com") = Fatal UnlockOfUnlockedMutex /\
  accessor failing KCNAME (start "example.com") = Fatal UnlockOfUnlockedMutex /\
  accessor failing KTXT (start "example.com") = Fatal UnlockOfUnlockedMutex.
Proof.
  split; [reflexivity | split].
  - apply (failed_lookup_outcome failing KCNAME (start "example.com")); reflexivity.
  - apply (failed_lookup_outcome failing KTXT (start "example.com")); reflexivity.
Defined.

(** C6: for the text and canonical-name slots there is no second attempt
    after a failed resolution: the first call ends the process, so the
    call that would retry never runs, whatever the resolver would have
    answered then.  (For the address slot the retry takes place, see
    [GetARecords_retry].) *)
Theorem failed_lookup_not_retried (N : Net) (k : Kind) (w : World) :
  k = KCNAME \/ k = KTXT ->
  mutex w = false ->
  cached k (rec w) = false ->
  fetch_fails N k w = true ->
  (accessor N k >> accessor N k) w = Fatal UnlockOfUnlockedMutex.
Proof.
  intros Hk Hm Hc Hf. unfold bind at 1.
  rewrite (unlock_without_lock N k w Hk Hm Hc Hf). reflexivity.
Qed.

Lemma failed_lookup_not_retried_witness :
  fst (LookupTXT flaky [] "example.com") = nil_slice /\
  LookupTXT flaky [QTXT "example.com"] "example.com" = (Some ["v=spf1 -all"], None) /\
  (accessor flaky KTXT >> accessor flaky KTXT) (start "example.com")
  = Fatal UnlockOfUnlockedMutex.
Proof.
  split; [reflexivity | split; [reflexivity|]].
  apply (failed_lookup_not_retried flaky KTXT (start "example.com"));
    [right; reflexivity | reflexivity | reflexivity | reflexivity].
Defined.

(** ** The aggregate accessor *)

(** When [GetAllRecords] returns, its map has the six keys and no other. *)
Lemma GetAllRecords_keys (N : Net) (w : World) (m : gmap string Value) (w' : World) :
  GetAllRecords N w = Returned m w' -> dom m = all_keys.
Proof. intros H. apply GetAllRecords_returns in H as [Hd _]. exact Hd. Qed.

(** C5: [GetAllRecords] does not return a map for every outcome of the
    lookups: on an instance whose canonical name is not cached, a failing
    canonical-name lookup ends the process inside [GetCnameRecords], after
    the address lookup and before any key but the first is written. *)
Theorem GetAllRecords_fatal_on_cname_failure (N : Net) (w : World) :
  mutex w = false ->
  cnameRecords (rec w) = "" ->
  (forall log, err_is_nil (snd (LookupCNAME N log (domain (rec w)))) = false) ->
  GetAllRecords N w = Fatal UnlockOfUnlockedMutex.
Proof.
  intros Hm Hc Hfail.
  destruct (GetARecords_total N w Hm) as (a & w1 & Ha).
  destruct (GetARecords_returns N w a w1 Ha) as (_ & [Hd _] & Hm1 & _).
  destruct (GetARecords_writes_a N w a w1 Ha) as [x Hx].
  assert (Hc1 : String.eqb (cnameRecords (rec w1)) "" = true).
  { rewrite Hx. cbn [set_aRecords cnameRecords]. rewrite Hc. reflexivity. }
  specialize (Hfail (calls w1)). rewrite <- Hd in Hfail.
  destruct (LookupCNAME N (calls w1) (domain (rec w1))) as [r [e|]] eqn:Hr;
    [| discriminate].
  unfold GetAllRecords. unfold bind at 1. rewrite Ha.
  unfold bind at 1. rewrite (GetCnameRecords_fail N w1 r e Hc1 (Hm1 Hm) Hr).
  reflexivity.
Qed.

Lemma GetAllRecords_fatal_on_cname_failure_witness :
  GetAllRecords failing (start "example.com") = Fatal UnlockOfUnlockedMutex.
Proof.
  apply (GetAllRecords_fatal_on_cname_failure failing (start "example.com"));
    [reflexivity | reflexivity | intros log; reflexivity].
Defined.

(** ** The command line *)

(** A search type that is not one of the seven, or no search type at all:
    the usage line, and no lookup. *)
Lemma main_invalid_search_type (N : Net) (domainFlag sFlag : option string) :
  isValidSearchType (flag_String sFlag) = false ->
  main N domainFlag sFlag
  = Returned [PrintValue (VString usage)] (start (flag_String domainFlag)).
Proof. intros H. unfold main. rewrite H. reflexivity. Qed.

(** C9: a missing [-domain] does not lead to the usage line: with a valid
    search type the program queries the resolver for the empty name and
    prints what comes back. *)
Theorem main_without_domain_looks_up (N : Net) :
  exists v w,
    main N None (Some "a") = Returned [PrintValue (VIPs v)] w /\
    calls w = [QIP ""] /\
    [PrintValue (VIPs v)] <> [PrintValue (VString usage)].
Proof.
  unfold main. simpl. unfold bind.
  destruct (LookupIP N [] "") as [r [e|]] eqn:Hr.
  - rewrite (GetARecords_fail N (start "") r e eq_refl Hr).
    eexists _, _. split; [reflexivity | split; [reflexivity | discriminate]].
  - rewrite (GetARecords_fetch N (start "") r eq_refl eq_refl Hr).
    eexists _, _. split; [reflexivity | split; [reflexivity | discriminate]].
Qed.

(** ** Two calls in a row *)

(** C3, as stated, fails twice over.  A successful resolution with zero
    records: the address resolver answers with an empty list and no error,
    the slot stays nil, and the second [GetARecords] asks the resolver
    again.  A failed resolution: the slot stays nil as well, and the second
    call is the retry. *)
Lemma second_call_asks_again :
  (exists v1 w1 v2 w2,
     LookupIP answering_empty [] "example.com" = (Some [], None) /\
     accessor answering_empty KA (start "example.com") = Returned v1 w1 /\
     accessor answering_empty KA w1 = Returned v2 w2 /\
     calls w1 = [QIP "example.com"] /\
     calls w2 = [QIP "example.com"; QIP "example.com"] /\
     lookups (query KA "example.com") (calls w2) = 2) /\
  (exists v1 w1 v2 w2,
     accessor flaky KA (start "example.com") = Returned v1 w1 /\
     accessor flaky KA w1 = Returned v2 w2 /\
     calls w1 = [QIP "example.com"] /\
     calls w2 = [QIP "example.com"; QIP "example.com"] /\
     lookups (query KA "example.com") (calls w2) = 2).
Proof.
  split.
  - eexists _, _, _, _.
    split; [reflexivity|].
    split; [vm_compute; reflexivity|].
    split; [vm_compute; reflexivity|].
    split; [reflexivity|].
    split; reflexivity.
  - eexists _, _, _, _.
    split; [vm_compute; reflexivity|].
    split; [vm_compute; reflexivity|].
    split; [reflexivity|].
    split; reflexivity.
Qed.

Lemma fetch_fills_cached (N : Net) (k : Kind) (w : World) :
  mutex w = false ->
  cached k (rec w) = false ->
  fetch_fills N k w = true ->
  exists v w1,
    accessor N k w = Returned v w1 /\
    calls w1 = query k (domain (rec w)) :: calls w /\
    v = slot k (rec w1) /\
    cached k (rec w1) = true.
Proof.
  intros Hm Hc Hf.
  destruct k; simpl in *; apply negb_false_iff in Hc; unfold bind.
  - destruct (LookupIP N (calls w) (domain (rec w))) as [r [e|]] eqn:Hr;
      [discriminate|]. simpl in Hf.
    rewrite (GetARecords_fetch N w r Hc Hm Hr).
    eexists _, _. split; [reflexivity | split; [reflexivity | split; [reflexivity|]]].
    cbn [rec set_aRecords aRecords]. rewrite append_nil_is_nil. exact Hf.
  - destruct (LookupCNAME N (calls w) (domain (rec w))) as [r [e|]] eqn:Hr;
      [discriminate|]. simpl in Hf.
    rewrite (GetCnameRecords_fetch N w r Hc Hm Hr).
    eexists _, _. split; [reflexivity | split; [reflexivity | split; [reflexivity|]]].
    exact Hf.
  - destruct (LookupMX N (calls w) (domain (rec w))) as [r [e|]] eqn:Hr;
      [discriminate|].
    rewrite (GetMxRecords_fetch N w r Hc Hm Hr).
    eexists _, _. split; [reflexivity | split; [reflexivity | split; reflexivity]].
  - destruct (LookupNS N (calls w) (domain (rec w))) as [r [e|]] eqn:Hr;
      [discriminate|].
    rewrite (GetNsRecords_fetch N w r Hc Hm Hr).
    eexists _, _. split; [reflexivity | split; [reflexivity | split; reflexivity]].
  - discriminate.
  - destruct (LookupTXT N (calls w) (domain (rec w))) as [r [e|]] eqn:Hr;
      [discriminate|]. simpl in Hf.
    rewrite (GetTxtRecords_fetch N w r Hc Hm Hr).
    eexists _, _. split; [reflexivity | split; [reflexivity | split; [reflexivity|]]].
    exact Hf.
Qed.

(** C3, amended: when slot K is already cached, or the first resolution
    succeeds with an answer that leaves it cached (at least one address, a
    canonical name that is not empty, a text list that is not nil, any
    list of mail exchanges or name servers, empty or not), two calls of the
    K-accessor in sequence make at most one resolver call for K: the first
    call makes the lookup if the slot was empty, the second returns the
    same value from the slot, asks nothing and changes nothing. *)
Theorem second_call_served_from_cache (N : Net) (k : Kind) (w : World) :
  mutex w = false ->
  cached k (rec w) || fetch_fills N k w = true ->
  exists v w1,
    accessor N k w = Returned v w1 /\
    (calls w1 = calls w \/ calls w1 = query k (domain (rec w)) :: calls w) /\
    accessor N k w1 = Returned v w1.
Proof.
  intros Hm H. destruct (cached k (rec w)) eqn:Hc.
  - exists (slot k (rec w)), w.
    split; [apply accessor_hit, Hc | split; [left; reflexivity | apply accessor_hit, Hc]].
  - simpl in H.
    destruct (fetch_fills_cached N k w Hm Hc H) as (v & w1 & Hrun & Hcalls & -> & Hc1).
    exists (slot k (rec w1)), w1.
    split; [exact Hrun | split; [right; exact Hcalls | apply accessor_hit, Hc1]].
Qed.

Lemma second_call_served_from_cache_witness :
  exists v w1,
    accessor answering_empty KMX (start "example.com") = Returned v w1 /\
    v = VMXs (Some []) /\
    calls w1 = [QMX "example.com"] /\
    accessor answering_empty KMX w1 = Returned v w1.
Proof.
  destruct (second_call_served_from_cache answering_empty KMX (start "example.com"))
    as (v & w1 & Hrun & Hcalls & Hagain); [reflexivity | reflexivity |].
  exists v, w1. pose proof Hrun as Hrun'.
  vm_compute in Hrun'. inversion Hrun'; subst.
  split; [exact Hrun | split; [reflexivity | split; [reflexivity | exact Hagain]]].
Defined.

(** ** Retrying after a failure *)

(** The three accessors that swallow a failure leave the slot empty, so
    the next call asks the resolver again; when that second lookup
    succeeds with an answer that fills the slot, the call returns what is
    now stored. *)
Lemma retry_after_failure (N : Net) (k : Kind) (w : World) :
  k = KA \/ k = KMX \/ k = KNS ->
  mutex w = false ->
  cached k (rec w) = false ->
  fetch_fails N k w = true ->
  let w1 := mkWorld (rec w) false (query k (domain (rec w)) :: calls w) in
  accessor N k w = Returned (slot k (rec w)) w1 /\
  cached k (rec w1) = false /\
  (fetch_fills N k w1 = true ->
   exists v w2,
     accessor N k w1 = Returned v w2 /\
     calls w2 = query k (domain (rec w)) :: query k (domain (rec w)) :: calls w /\
     v = slot k (rec w2) /\
     cached k (rec w2) = true).
Proof.
  intros Hk Hm Hc Hf w1. split; [| split].
  - unfold w1. rewrite <- Hm. apply failure_swallowed; assumption.
  - exact Hc.
  - intros Hfill.
    destruct (fetch_fills_cached N k w1 eq_refl Hc Hfill) as (v & w2 & Hrun & Hcalls & Hv & Hc2).
    exists v, w2. auto.
Qed.

(** * Further properties of the accessors *)

(** ** What the pointer loop collects *)

Lemma append_elems {A : Type} (s xs : slice A) :
  elems (append s xs) = elems s ++ elems xs.
Proof.
  unfold append. destruct s as [l0|]; simpl; [reflexivity|].
  destruct (elems xs); reflexivity.
Qed.

Lemma append_nothing {A : Type} (s : slice A) : append s (Some []) = s.
Proof. destruct s as [l0|]; simpl; [rewrite app_nil_r|]; reflexivity. Qed.

Lemma append_append {A : Type} (s xs : slice A) (l : list A) :
  append (append s xs) (Some l) = append s (Some (elems xs ++ l)).
Proof.
  unfold append. destruct s as [l0|]; simpl.
  - rewrite <- app_assoc. reflexivity.
  - destruct (elems xs) as [|x l1]; simpl; [destruct l|]; reflexivity.
Qed.

Lemma set_ptrRecords_same d : set_ptrRecords (ptrRecords d) d = d.
Proof. destruct d; reflexivity. Qed.

Lemma world_eta w : mkWorld (rec w) (mutex w) (calls w) = w.
Proof. destruct w; reflexivity. Qed.

(** The loop, in closed form: the pointer slot gets the collected names
    appended, the log one reverse lookup per address. *)
Lemma reverse_each_gathers (N : Net) (addrs : list IP) :
  forall w,
    reverse_each N addrs w
    = Returned tt
        (mkWorld
           (set_ptrRecords
              (append (ptrRecords (rec w)) (Some (gathered N (calls w) addrs)))
              (rec w))
           (mutex w)
           (List.rev (asked N addrs) ++ calls w)).
Proof.
  induction addrs as [|v addrs IH]; intros w.
  - simpl. rewrite append_nothing, set_ptrRecords_same, world_eta. reflexivity.
  - cbn [reverse_each]. unfold bind at 1. unfold ask at 1.
    destruct (LookupAddr N (calls w) (IP_String N v)) as [ptr e] eqn:Hl.
    unfold bind at 1. unfold store at 1. rewrite IH.
    unfold set_ptrRecords.
    cbn [rec mutex calls gathered asked List.map List.rev domain aRecords
         cnameRecords mxRecords nsRecords ptrRecords txtRecords].
    rewrite Hl. cbn [fst]. rewrite append_append, <- app_assoc. reflexivity.
Qed.

Lemma gathered_nothing (N : Net) (addrs : list IP) :
  (forall log a, elems (fst (LookupAddr N log a)) = []) ->
  forall log, gathered N log addrs = [].
Proof.
  intros Hnone. induction addrs as [|v addrs IH]; intros log; simpl.
  - reflexivity.
  - rewrite Hnone, IH. reflexivity.
Qed.

(** X1: with the addresses in their slot and the pointer slot empty,
    [GetPtrRecords] returns and stores the names of the reverse lookups in
    the order of the addresses, each answer kept whether or not it came
    with an error, and leaves the address slot as it was. *)
Theorem GetPtrRecords_collects_in_order (N : Net) (w : World) :
  is_nil (ptrRecords (rec w)) = true ->
  is_nil (aRecords (rec w)) = false ->
  exists v w',
    GetPtrRecords N w = Returned v w' /\
    elems v = gathered N (calls w) (elems (aRecords (rec w))) /\
    ptrRecords (rec w') = v /\
    aRecords (rec w') = aRecords (rec w).
Proof.
  intros Hp Ha. unfold GetPtrRecords. go_unfold. rewrite Hp, Ha. simpl.
  rewrite reverse_each_gathers. simpl.
  eexists _, _. split; [reflexivity|].
  destruct (ptrRecords (rec w)) as [l|]; [discriminate|].
  split; [| split; reflexivity].
  rewrite append_elems. reflexivity.
Qed.

Lemma GetPtrRecords_collects_in_order_witness :
  let w0 := mkWorld (set_aRecords (Some [example_ip; example_ip]) (NewDnsRecord "example.com"))
              false [] in
  exists v w',
    GetPtrRecords answering w0 = Returned v w' /\
    elems v = ["host.example.com."; "host.example.com."].
Proof.
  intros w0.
  destruct (GetPtrRecords_collects_in_order answering w0)
    as (v & w' & Hrun & Hv & _); [reflexivity | reflexivity |].
  exists v, w'. split; [exact Hrun | exact Hv].
Defined.

(** X2: reverse lookups that give no name are not cached.  With the
    addresses held, the pointer slot empty and a resolver that has no name
    for any address, [GetPtrRecords] returns nil and leaves the record
    untouched, so the next call goes through every address again. *)
Theorem GetPtrRecords_nothing_found_not_cached (N : Net) (w : World) :
  is_nil (ptrRecords (rec w)) = true ->
  is_nil (aRecords (rec w)) = false ->
  (forall log a, elems (fst (LookupAddr N log a)) = []) ->
  let once := List.rev (asked N (elems (aRecords (rec w)))) in
  let w1 := mkWorld (rec w) (mutex w) (once ++ calls w) in
  let w2 := mkWorld (rec w) (mutex w) (once ++ once ++ calls w) in
  GetPtrRecords N w = Returned nil_slice w1 /\
  GetPtrRecords N w1 = Returned nil_slice w2.
Proof.
  intros Hp Ha Hnone once w1 w2.
  assert (Hstep : forall log,
            GetPtrRecords N (mkWorld (rec w) (mutex w) log)
            = Returned nil_slice (mkWorld (rec w) (mutex w) (once ++ log))).
  { intros log. unfold GetPtrRecords. go_unfold. rewrite Hp, Ha. simpl.
    rewrite reverse_each_gathers. simpl.
    rewrite (gathered_nothing N _ Hnone).
    destruct (ptrRecords (rec w)) as [l|] eqn:Hslot; [discriminate|].
    simpl. rewrite <- Hslot, set_ptrRecords_same, Hslot. reflexivity. }
  split.
  - rewrite <- (world_eta w) at 1. apply Hstep.
  - apply Hstep.
Qed.

Lemma GetPtrRecords_nothing_found_not_cached_witness :
  let w0 := mkWorld (set_aRecords (Some [example_ip]) (NewDnsRecord "example.net"))
              false [] in
  GetPtrRecords failing w0
  = Returned nil_slice (mkWorld (rec w0) false [QAddr "93.184.216.34"]) /\
  GetPtrRecords failing (mkWorld (rec w0) false [QAddr "93.184.216.34"])
  = Returned nil_slice
      (mkWorld (rec w0) false [QAddr "93.184.216.34"; QAddr "93.184.216.34"]).
Proof.
  intros w0.
  apply (GetPtrRecords_nothing_found_not_cached failing w0);
    [reflexivity | reflexivity | intros log a; reflexivity].
Defined.

(** X3: what the pointer slot holds after a first call that had to fetch
    the addresses: the names of the pass made inside the fetching branch,
    followed by the names of the pass made after it, each over all the
    addresses just fetched. *)
Theorem GetPtrRecords_fetching_collects_twice (N : Net) (w : World) (r : slice IP) :
  is_nil (ptrRecords (rec w)) = true ->
  is_nil (aRecords (rec w)) = true ->
  mutex w = false ->
  LookupIP N (calls w) (domain (rec w)) = (r, None) ->
  let log1 := QIP (domain (rec w)) :: calls w in
  let log2 := List.rev (asked N (elems r)) ++ log1 in
  exists v w',
    GetPtrRecords N w = Returned v w' /\
    elems v = gathered N log1 (elems r) ++ gathered N log2 (elems r) /\
    ptrRecords (rec w') = v /\
    elems (aRecords (rec w')) = elems r.
Proof.
  intros Hp Ha Hm Hr log1 log2.
  pose proof (GetARecords_fetch N w r Ha Hm Hr) as Hget.
  unfold GetPtrRecords. go_unfold. rewrite Hp, Ha. simpl. rewrite Hget.
  rewrite reverse_each_gathers. cbn [rec mutex calls].
  rewrite reverse_each_gathers. cbn [rec mutex calls].
  unfold set_ptrRecords, set_aRecords.
  cbn [domain aRecords cnameRecords mxRecords nsRecords ptrRecords txtRecords].
  rewrite !append_nil_elems.
  eexists _, _. split; [reflexivity|].
  destruct (ptrRecords (rec w)) as [l|]; [discriminate|].
  cbn [rec ptrRecords aRecords].
  split; [| split; [reflexivity | apply append_nil_elems]].
  rewrite !append_elems. reflexivity.
Qed.

Lemma GetPtrRecords_fetching_collects_twice_witness :
  exists v w',
    GetPtrRecords answering (start "example.com") = Returned v w' /\
    elems v = ["host.example.com."; "host.example.com."] /\
    elems (aRecords (rec w')) = [example_ip].
Proof.
  destruct (GetPtrRecords_fetching_collects_twice answering (start "example.com")
              (Some [example_ip]))
    as (v & w' & Hrun & Hv & _ & Ha);
    [reflexivity | reflexivity | reflexivity | reflexivity |].
  exists v, w'. split; [exact Hrun | split; [exact Hv | exact Ha]].
Defined.

(** ** One call, one slot, one lookup *)

Ltac other_slots :=
  let k' := fresh "k'" in
  let Hne := fresh "Hne" in
  intros k' Hne; destruct k'; try reflexivity; congruence.

Ltac wrote :=
  let H := fresh "H" in
  intros H; inversion H; subst; clear H; unfold wrote_only;
  cbn [cached rec calls];
  match goal with
  | Hs : _ = _ |- _ => rewrite Hs; cbn [negb]
  end;
  first [ reflexivity | split; [reflexivity | other_slots] ].

Section OneCall.

Variable N : Net.

Lemma GetARecords_wrote_only w v w' :
  GetARecords N w = Returned v w' -> wrote_only KA w w'.
Proof.
  destruct (is_nil (aRecords (rec w))) eqn:Hs.
  - destruct (LookupIP N (calls w) (domain (rec w))) as [r [e|]] eqn:Hr.
    + rewrite (GetARecords_fail N w r e Hs Hr). clear Hr. wrote.
    + destruct (mutex w) eqn:Hm.
      * unfold GetARecords. go_unfold. rewrite Hs, Hr, Hm. discriminate.
      * rewrite (GetARecords_fetch N w r Hs Hm Hr). clear Hr Hm. wrote.
  - rewrite (GetARecords_hit N w Hs). wrote.
Qed.

Lemma GetMxRecords_wrote_only w v w' :
  GetMxRecords N w = Returned v w' -> wrote_only KMX w w'.
Proof.
  destruct (is_nil (mxRecords (rec w))) eqn:Hs.
  - destruct (LookupMX N (calls w) (domain (rec w))) as [r [e|]] eqn:Hr.
    + rewrite (GetMxRecords_fail N w r e Hs Hr). clear Hr. wrote.
    + destruct (mutex w) eqn:Hm.
      * unfold GetMxRecords. go_unfold. rewrite Hs, Hr, Hm. discriminate.
      * rewrite (GetMxRecords_fetch N w r Hs Hm Hr). clear Hr Hm. wrote.
  - rewrite (GetMxRecords_hit N w Hs). wrote.
Qed.

Lemma GetNsRecords_wrote_only w v w' :
  GetNsRecords N w = Returned v w' -> wrote_only KNS w w'.
Proof.
  destruct (is_nil (nsRecords (rec w))) eqn:Hs.
  - destruct (LookupNS N (calls w) (domain (rec w))) as [r [e|]] eqn:Hr.
    + rewrite (GetNsRecords_fail N w r e Hs Hr). clear Hr. wrote.
    + destruct (mutex w) eqn:Hm.
      * unfold GetNsRecords. go_unfold. rewrite Hs, Hr, Hm. discriminate.
      * rewrite (GetNsRecords_fetch N w r Hs Hm Hr). clear Hr Hm. wrote.
  - rewrite (GetNsRecords_hit N w Hs). wrote.
Qed.

Lemma GetCnameRecords_wrote_only w v w' :
  GetCnameRecords N w = Returned v w' -> wrote_only KCNAME w w'.
Proof.
  destruct (String.eqb (cnameRecords (rec w)) "") eqn:Hs.
  - destruct (LookupCNAME N (calls w) (domain (rec w))) as [r [e|]] eqn:Hr;
      destruct (mutex w) eqn:Hm.
    + unfold GetCnameRecords. go_unfold. rewrite Hs, Hr, Hm. clear Hr Hm. wrote.
    + rewrite (GetCnameRecords_fail N w r e Hs Hm Hr). discriminate.
    + unfold GetCnameRecords. go_unfold. rewrite Hs, Hr, Hm. discriminate.
    + rewrite (GetCnameRecords_fetch N w r Hs Hm Hr). clear Hr Hm. wrote.
  - rewrite (GetCnameRecords_hit N w Hs). wrote.
Qed.

Lemma GetTxtRecords_wrote_only w v w' :
  GetTxtRecords N w = Returned v w' -> wrote_only KTXT w w'.
Proof.
  destruct (is_nil (txtRecords (rec w))) eqn:Hs.
  - destruct (LookupTXT N (calls w) (domain (rec w))) as [r [e|]] eqn:Hr;
      destruct (mutex w) eqn:Hm.
    + unfold GetTxtRecords. go_unfold. rewrite Hs, Hr, Hm. clear Hr Hm. wrote.
    + rewrite (GetTxtRecords_fail N w r e Hs Hm Hr). discriminate.
    + unfold GetTxtRecords. go_unfold. rewrite Hs, Hr, Hm. discriminate.
    + rewrite (GetTxtRecords_fetch N w r Hs Hm Hr). clear Hr Hm. wrote.
  - rewrite (GetTxtRecords_hit N w Hs). wrote.
Qed.

Lemma accessor_wrote_only k w v w' :
  k <> KPTR ->
  accessor N k w = Returned v w' -> wrote_only k w w'.
Proof.
  intros Hk H. destruct k; simpl in H; try congruence;
    apply bind_returned in H as (x & w1 & Hx & H);
    inversion H; subst; clear H.
  - eapply GetARecords_wrote_only; eassumption.
  - eapply GetCnameRecords_wrote_only; eassumption.
  - eapply GetMxRecords_wrote_only; eassumption.
  - eapply GetNsRecords_wrote_only; eassumption.
  - eapply GetTxtRecords_wrote_only; eassumption.
Qed.

Lemma wrote_only_frame k w w' :
  wrote_only k w w' ->
  forall k', k' <> k -> slot k' (rec w') = slot k' (rec w).
Proof.
  unfold wrote_only. destruct (cached k (rec w)).
  - intros -> k' _. reflexivity.
  - intros [_ H]. exact H.
Qed.

(** The pointer accessor writes the pointer slot and, through
    [GetARecords], the address slot; nothing else. *)
Lemma GetPtrRecords_frame w v w' :
  GetPtrRecords N w = Returned v w' ->
  forall k', k' <> KPTR -> k' <> KA -> slot k' (rec w') = slot k' (rec w).
Proof.
  destruct (is_nil (ptrRecords (rec w))) eqn:Hp.
  - destruct (is_nil (aRecords (rec w))) eqn:Ha.
    + destruct (GetARecords N w) as [v1 w1|f] eqn:Hget.
      * destruct (GetPtrRecords_fetched N w v1 w1 Hp Ha Hget) as [p ->].
        destruct (GetARecords_writes_a N w v1 w1 Hget) as [x Hx].
        intros H; inversion H; subst; clear H. cbn [rec]. rewrite Hx.
        intros [] H1 H2; try reflexivity; congruence.
      * rewrite (GetPtrRecords_fetch_fatal N w f Hp Ha Hget). discriminate.
    + destruct (GetPtrRecords_held N w Hp Ha) as [p ->].
      intros H; inversion H; subst; clear H. cbn [rec].
      intros [] H1 H2; try reflexivity; congruence.
  - rewrite (GetPtrRecords_hit N w Hp).
    intros H; inversion H; subst; clear H. reflexivity.
Qed.

Lemma accessor_frame k w v w' :
  accessor N k w = Returned v w' ->
  forall k', k' <> k -> (k = KPTR -> k' <> KA) ->
  slot k' (rec w') = slot k' (rec w).
Proof.
  intros H k' Hne Hptr.
  assert (Hcase : k = KPTR \/ k <> KPTR)
    by (destruct k; first [left; reflexivity | right; discriminate]).
  destruct Hcase as [-> | Hk].
  - simpl in H. apply bind_returned in H as (x & w1 & Hx & H).
    inversion H; subst; clear H.
    eapply GetPtrRecords_frame; [eassumption | exact Hne | auto].
  - eapply wrote_only_frame; [eapply accessor_wrote_only; eassumption | exact Hne].
Qed.

End OneCall.

(** X4: a call of [GetARecords], [GetCnameRecords], [GetMxRecords],
    [GetNsRecords] or [GetTxtRecords] that returns has asked the resolver
    exactly once, for its own kind and on the domain, when its slot was
    empty, whether the lookup succeeded or not; when the slot was cached
    it has asked nothing and changed nothing. *)
Theorem plain_accessor_one_lookup (N : Net) (k : Kind) (w : World) (v : Value) (w' : World) :
  k <> KPTR ->
  accessor N k w = Returned v w' ->
  (cached k (rec w) = true -> w' = w) /\
  (cached k (rec w) = false -> calls w' = query k (domain (rec w)) :: calls w).
Proof.
  intros Hk H. apply (accessor_wrote_only N k w v w' Hk) in H.
  unfold wrote_only in H. destruct (cached k (rec w)).
  - split; [intros _; exact H | discriminate].
  - destruct H as [Hcalls _]. split; [discriminate | intros _; exact Hcalls].
Qed.

Lemma plain_accessor_one_lookup_witness :
  let w' := mkWorld (NewDnsRecord "example.com") false [QMX "example.com"] in
  accessor failing KMX (start "example.com") = Returned (VMXs nil_slice) w' /\
  calls w' = [QMX "example.com"].
Proof.
  intros w'. split; [reflexivity|].
  apply (plain_accessor_one_lookup failing KMX (start "example.com") (VMXs nil_slice) w');
    [discriminate | reflexivity | reflexivity].
Defined.

(** X5: a slot is written by its own accessor only, by [GetPtrRecords] for
    the address slot, and by [GetAllRecords]: over any sequence of other
    accessor calls it keeps its value, cached or not. *)
Theorem slot_written_by_its_accessor_only
    (N : Net) (k : Kind) (w : World) (cs : list Call) (w' : World) :
  reaches N w cs w' ->
  Forall (leaves_alone k) cs ->
  slot k (rec w') = slot k (rec w).
Proof.
  induction 1 as [w | w c w1 cs w2 Hc _ IH]; intros Hall.
  - reflexivity.
  - inversion Hall as [| c0 cs0 Hhead Htail]; subst.
    rewrite (IH Htail).
    destruct c as [k0|]; simpl in Hhead; [| contradiction].
    destruct Hhead as [Hne Hptr].
    simpl in Hc. apply bind_returned in Hc as (x & w0 & Hx & Hc).
    inversion Hc; subst; clear Hc.
    apply (accessor_frame N k0 w x w1 Hx); auto.
Qed.

Lemma slot_written_by_its_accessor_only_witness :
  exists w',
    reaches answering (start "example.com") [Get KMX; Get KPTR; Get KNS] w' /\
    slot KTXT (rec w') = VStrings nil_slice /\
    calls w' <> [].
Proof.
  eexists. split; [| split].
  - eapply reaches_cons; [vm_compute; reflexivity|].
    eapply reaches_cons; [vm_compute; reflexivity|].
    eapply reaches_cons; [vm_compute; reflexivity|].
    apply reaches_nil.
  - apply (slot_written_by_its_accessor_only answering KTXT (start "example.com")
             [Get KMX; Get KPTR; Get KNS]).
    + eapply reaches_cons; [vm_compute; reflexivity|].
      eapply reaches_cons; [vm_compute; reflexivity|].
      eapply reaches_cons; [vm_compute; reflexivity|].
      apply reaches_nil.
    + repeat constructor; discriminate.
  - discriminate.
Defined.

(** X6: between calls the package mutex is free.  From a fresh process,
    every call that returns has released what it locked, so no accessor
    ever finds the mutex held by an earlier call. *)
Theorem mutex_free_between_calls (N : Net) (domainName : string) (cs : list Call) (w : World) :
  reaches N (start domainName) cs w ->
  mutex w = false.
Proof.
  intros H. apply reaches_keeps in H as [_ Hm]. apply Hm. reflexivity.
Qed.

Lemma mutex_free_between_calls_witness :
  exists w,
    reaches answering (start "example.com") [Get KCNAME; GetAll; Get KTXT] w /\
    mutex w = false.
Proof.
  eexists. split.
  - eapply reaches_cons; [vm_compute; reflexivity|].
    eapply reaches_cons; [vm_compute; reflexivity|].
    eapply reaches_cons; [vm_compute; reflexivity|].
    apply reaches_nil.
  - apply (mutex_free_between_calls answering "example.com"
             [Get KCNAME; GetAll; Get KTXT]).
    eapply reaches_cons; [vm_compute; reflexivity|].
    eapply reaches_cons; [vm_compute; reflexivity|].
    eapply reaches_cons; [vm_compute; reflexivity|].
    apply reaches_nil.
Defined.

(** ** What a successful lookup stores *)

(** X7: on a successful lookup [GetMxRecords] and [GetNsRecords] return
    and store a fresh slice with the records of the answer, all of them
    and in their order; the slice is not nil even when the answer has no
    record. *)
Theorem mail_and_name_servers_copied (N : Net) (k : Kind) (w : World) :
  k = KMX \/ k = KNS ->
  cached k (rec w) = false ->
  mutex w = false ->
  fetch_fails N k w = false ->
  exists v w',
    accessor N k w = Returned v w' /\
    slot k (rec w') = v /\
    v = match k with
        | KMX => VMXs (Some (elems (fst (LookupMX N (calls w) (domain (rec w))))))
        | _ => VNSs (Some (elems (fst (LookupNS N (calls w) (domain (rec w))))))
        end.
Proof.
  intros [-> | ->] Hc Hm Hf; simpl in *;
    apply negb_false_iff in Hc; apply negb_false_iff in Hf; unfold bind.
  - destruct (LookupMX N (calls w) (domain (rec w))) as [r [e|]] eqn:Hr;
      [discriminate|].
    rewrite (GetMxRecords_fetch N w r Hc Hm Hr).
    eexists _, _. split; [reflexivity | split; reflexivity].
  - destruct (LookupNS N (calls w) (domain (rec w))) as [r [e|]] eqn:Hr;
      [discriminate|].
    rewrite (GetNsRecords_fetch N w r Hc Hm Hr).
    eexists _, _. split; [reflexivity | split; reflexivity].
Qed.

Lemma mail_and_name_servers_copied_witness :
  exists w',
    accessor answering KNS (start "example.com")
    = Returned (VNSs (Some [mkNS "a.iana-servers.net."; mkNS "b.iana-servers.net."])) w' /\
    slot KNS (rec w')
    = VNSs (Some [mkNS "a.iana-servers.net."; mkNS "b.iana-servers.net."]).
Proof.
  destruct (mail_and_name_servers_copied answering KNS (start "example.com"))
    as (v & w' & Hrun & Hslot & Hv);
    [right; reflexivity | reflexivity | reflexivity | reflexivity |].
  exists w'. simpl in Hv. rewrite Hv in Hrun, Hslot.
  split; [exact Hrun | exact Hslot].
Defined.

(** X8: on a successful lookup [GetARecords] returns and stores the
    addresses of the answer, all of them and in their order; when the
    answer has no address the result and the slot are nil. *)
Theorem GetARecords_returns_addresses (N : Net) (w : World) (r : slice IP) :
  is_nil (aRecords (rec w)) = true ->
  mutex w = false ->
  LookupIP N (calls w) (domain (rec w)) = (r, None) ->
  exists v w',
    GetARecords N w = Returned v w' /\
    aRecords (rec w') = v /\
    elems v = elems r /\
    is_nil v = Nat.eqb (len r) 0.
Proof.
  intros Hs Hm Hr. rewrite (GetARecords_fetch N w r Hs Hm Hr).
  eexists _, _. split; [reflexivity|]. cbn [rec set_aRecords aRecords].
  split; [reflexivity | split; [apply append_nil_elems | apply append_nil_is_nil]].
Qed.

Lemma GetARecords_returns_addresses_witness :
  exists v w',
    GetARecords answering (start "example.com") = Returned v w' /\
    aRecords (rec w') = v /\
    elems v = [example_ip].
Proof.
  destruct (GetARecords_returns_addresses answering (start "example.com")
              (Some [example_ip]))
    as (v & w' & Hrun & Hslot & Hv & _); [reflexivity | reflexivity | reflexivity |].
  exists v, w'. split; [exact Hrun | split; [exact Hslot | exact Hv]].
Defined.

(** X9: which successful answers are cached.  After a lookup that
    succeeded, the slot is cached exactly when the answer has at least one
    address (A), is not the empty name (CNAME), is not a nil list (TXT);
    for MX and NS it is always cached. *)
Theorem success_cached_exactly_when_filled (N : Net) (k : Kind) (w : World) :
  k <> KPTR ->
  cached k (rec w) = false ->
  mutex w = false ->
  fetch_fails N k w = false ->
  exists v w',
    accessor N k w = Returned v w' /\
    cached k (rec w') = fetch_fills N k w.
Proof.
  intros Hk Hc Hm Hf.
  destruct k; simpl in *; try congruence;
    apply negb_false_iff in Hc; apply negb_false_iff in Hf; unfold bind.
  - destruct (LookupIP N (calls w) (domain (rec w))) as [r [e|]] eqn:Hr;
      [discriminate|].
    rewrite (GetARecords_fetch N w r Hc Hm Hr).
    eexists _, _. split; [reflexivity|].
    cbn [rec set_aRecords aRecords]. rewrite append_nil_is_nil. reflexivity.
  - destruct (LookupCNAME N (calls w) (domain (rec w))) as [r [e|]] eqn:Hr;
      [discriminate|].
    rewrite (GetCnameRecords_fetch N w r Hc Hm Hr).
    eexists _, _. split; reflexivity.
  - destruct (LookupMX N (calls w) (domain (rec w))) as [r [e|]] eqn:Hr;
      [discriminate|].
    rewrite (GetMxRecords_fetch N w r Hc Hm Hr).
    eexists _, _. split; reflexivity.
  - destruct (LookupNS N (calls w) (domain (rec w))) as [r [e|]] eqn:Hr;
      [discriminate|].
    rewrite (GetNsRecords_fetch N w r Hc Hm Hr).
    eexists _, _. split; reflexivity.
  - destruct (LookupTXT N (calls w) (domain (rec w))) as [r [e|]] eqn:Hr;
      [discriminate|].
    rewrite (GetTxtRecords_fetch N w r Hc Hm Hr).
    eexists _, _. split; reflexivity.
Qed.

Lemma success_cached_exactly_when_filled_witness :
  (exists v w',
     accessor answering_empty KTXT (start "example.com") = Returned v w' /\
     cached KTXT (rec w') = true) /\
  (exists v w',
     accessor answering_empty KCNAME (start "example.com") = Returned v w' /\
     cached KCNAME (rec w') = false).
Proof.
  split.
  - destruct (success_cached_exactly_when_filled answering_empty KTXT (start "example.com"))
      as (v & w' & Hrun & Hc); [discriminate | reflexivity | reflexivity | reflexivity |].
    exists v, w'. split; [exact Hrun | exact Hc].
  - destruct (success_cached_exactly_when_filled answering_empty KCNAME (start "example.com"))
      as (v & w' & Hrun & Hc); [discriminate | reflexivity | reflexivity | reflexivity |].
    exists v, w'. split; [exact Hrun | exact Hc].
Defined.

(** ** The aggregate accessor, entry by entry *)

(** X10: on a record whose six slots are cached, [GetAllRecords] asks the
    resolver nothing, changes nothing and returns the map of the six
    slots. *)
Theorem GetAllRecords_all_cached (N : Net) (w : World) :
  (forall k, cached k (rec w) = true) ->
  GetAllRecords N w = Returned (records_of (rec w)) w.
Proof.
  intros H.
  pose proof (H KA) as Ha. pose proof (H KCNAME) as Hc.
  pose proof (H KMX) as Hmx. pose proof (H KNS) as Hn.
  pose proof (H KPTR) as Hp. pose proof (H KTXT) as Ht.
  simpl in Ha, Hc, Hmx, Hn, Hp, Ht.
  apply negb_true_iff in Ha, Hc, Hmx, Hn, Hp, Ht.
  unfold GetAllRecords, bind.
  rewrite (GetARecords_hit N w Ha), (GetCnameRecords_hit N w Hc),
    (GetMxRecords_hit N w Hmx), (GetNsRecords_hit N w Hn),
    (GetPtrRecords_hit N w Hp), (GetTxtRecords_hit N w Ht).
  reflexivity.
Qed.

Lemma GetAllRecords_all_cached_witness :
  exists m w1,
    GetAllRecords answering (start "example.com") = Returned m w1 /\
    GetAllRecords failing w1 = Returned (records_of (rec w1)) w1.
Proof.
  eexists _, _. split; [vm_compute; reflexivity|].
  apply GetAllRecords_all_cached. intros []; reflexivity.
Defined.

(** X11: the map that [GetAllRecords] returns agrees with the record it
    leaves.  The entries for CNAME, MX, NS, PTR and TXT are the slots as
    they stand after the call; so is the entry for A whenever it is not
    nil.  (A nil entry for A may be older than the slot: [GetPtrRecords]
    asks for the addresses again.) *)
Theorem GetAllRecords_entries (N : Net) (w : World) (m : gmap string Value) (w' : World) :
  GetAllRecords N w = Returned m w' ->
  (forall k, k <> KA -> m !! key k = Some (slot k (rec w'))) /\
  exists a,
    m !! key KA = Some (VIPs a) /\
    (is_nil a = false -> aRecords (rec w') = a).
Proof.
  unfold GetAllRecords. intros H.
  apply bind_returned in H as (a & w1 & Ha & H).
  apply bind_returned in H as (c & w2 & Hc & H).
  apply bind_returned in H as (mx & w3 & Hmx & H).
  apply bind_returned in H as (n & w4 & Hn & H).
  apply bind_returned in H as (p & w5 & Hp & H).
  apply bind_returned in H as (t & w6 & Ht & H).
  inversion H; subst; clear H.
  pose proof (wrote_only_frame _ _ _ (GetMxRecords_wrote_only N _ _ _ Hmx)) as F3.
  pose proof (wrote_only_frame _ _ _ (GetNsRecords_wrote_only N _ _ _ Hn)) as F4.
  pose proof (GetPtrRecords_frame N _ _ _ Hp) as F5.
  pose proof (wrote_only_frame _ _ _ (GetTxtRecords_wrote_only N _ _ _ Ht)) as F6.
  destruct (GetARecords_returns N _ _ _ Ha) as (Va & _).
  destruct (GetCnameRecords_returns N _ _ _ Hc) as (Vc & Kc & _).
  destruct (GetMxRecords_returns N _ _ _ Hmx) as (Vmx & Kmx & _).
  destruct (GetNsRecords_returns N _ _ _ Hn) as (Vn & Kn & _).
  destruct (GetPtrRecords_returns N _ _ _ Hp) as (Vp & Kp & _).
  destruct (GetTxtRecords_returns N _ _ _ Ht) as (Vt & Kt & _).
  split.
  - intros k Hk. destruct k; [congruence | | | | |]; cbn [key].
    + rewrite !lookup_insert_ne, lookup_insert_eq by discriminate.
      rewrite (F6 KCNAME), (F5 KCNAME), (F4 KCNAME), (F3 KCNAME) by discriminate.
      subst c. reflexivity.
    + rewrite !lookup_insert_ne, lookup_insert_eq by discriminate.
      rewrite (F6 KMX), (F5 KMX), (F4 KMX) by discriminate.
      subst mx. reflexivity.
    + rewrite !lookup_insert_ne, lookup_insert_eq by discriminate.
      rewrite (F6 KNS), (F5 KNS) by discriminate.
      subst n. reflexivity.
    + rewrite !lookup_insert_ne, lookup_insert_eq by discriminate.
      rewrite (F6 KPTR) by discriminate.
      subst p. reflexivity.
    + rewrite lookup_insert_eq. subst t. reflexivity.
  - exists a. cbn [key]. split.
    + rewrite !lookup_insert_ne, lookup_insert_eq by discriminate. reflexivity.
    + intros Hnil.
      assert (Hkeep : keeps (rec w1) (rec w')).
      { eapply keeps_trans; [exact Kc|]. eapply keeps_trans; [exact Kmx|].
        eapply keeps_trans; [exact Kn|]. eapply keeps_trans; [exact Kp|]. exact Kt. }
      destruct Hkeep as [_ Hslots]. specialize (Hslots KA).
      simpl in Hslots. rewrite <- Va, Hnil in Hslots.
      specialize (Hslots eq_refl). injection Hslots as ->. reflexivity.
Qed.

Lemma GetAllRecords_entries_witness :
  exists m w',
    GetAllRecords flaky (start "example.com") = Returned m w' /\
    m !! "PTR records" = Some (VStrings (ptrRecords (rec w'))) /\
    m !! "TXT records" = Some (VStrings (txtRecords (rec w'))).
Proof.
  destruct (GetAllRecords flaky (start "example.com")) as [m w'|f] eqn:Hrun;
    [| vm_compute in Hrun; discriminate].
  destruct (GetAllRecords_entries flaky (start "example.com") m w' Hrun) as [Hk _].
  exists m, w'. split; [reflexivity | split].
  - apply (Hk KPTR). discriminate.
  - apply (Hk KTXT). discriminate.
Defined.

(** ** The command line, line by line *)

(** X12: whenever [main] returns it has printed exactly one line: the
    usage text, or the result of the one accessor that the search type
    names.  Every search type that passes [isValidSearchType] has its case
    in the switch. *)
Theorem main_prints_one_line
    (N : Net) (domainFlag sFlag : option string) (lines : list Line) (w : World) :
  main N domainFlag sFlag = Returned lines w ->
  length lines = 1.
Proof.
  unfold main.
  destruct (isValidSearchType (flag_String sFlag)) eqn:Hv; cbn [negb].
  - unfold isValidSearchType, searchOptions in Hv. apply search_first in Hv.
    simpl in Hv.
    destruct Hv as [Hs | [Hs | [Hs | [Hs | [Hs | [Hs | [Hs | []]]]]]]];
      rewrite <- Hs; simpl; intros Hrun;
      apply bind_returned in Hrun as (x & w1 & _ & Hret);
      inversion Hret; reflexivity.
  - intros Hrun. inversion Hrun. reflexivity.
Qed.

Lemma main_prints_one_line_witness :
  exists w,
    main answering (Some "example.com") (Some "mx")
    = Returned [PrintValue (VMXs (Some [mkMX "." 0]))] w /\
    length [PrintValue (VMXs (Some [mkMX "." 0]))] = 1.
Proof.
  eexists. split; [vm_compute; reflexivity|].
  eapply (main_prints_one_line answering (Some "example.com") (Some "mx")).
  vm_compute. reflexivity.
Defined.

(** X13: a search type that is not literally one of the seven options (a
    missing [-s], a different spelling, another case) gives the usage line
    and nothing else: no resolver call, whatever the domain. *)
Theorem main_usage_for_unknown_search_type
    (N : Net) (domainFlag sFlag : option string) :
  ~ In (flag_String sFlag) searchOptions ->
  main N domainFlag sFlag
  = Returned [PrintValue (VString usage)] (start (flag_String domainFlag)) /\
  calls (start (flag_String domainFlag)) = [].
Proof.
  intros Hnot. split; [| reflexivity].
  unfold main.
  destruct (isValidSearchType (flag_String sFlag)) eqn:Hv; [| reflexivity].
  exfalso. apply Hnot.
  unfold isValidSearchType in Hv. unfold searchOptions in *.
  apply search_first in Hv. exact Hv.
Qed.

Lemma main_usage_for_unknown_search_type_witness :
  main answering (Some "example.com") None
  = Returned [PrintValue (VString usage)] (start "example.com") /\
  main answering (Some "example.com") (Some "MX")
  = Returned [PrintValue (VString usage)] (start "example.com").
Proof.
  split.
  - apply (main_usage_for_unknown_search_type answering (Some "example.com") None).
    simpl. intuition discriminate.
  - apply (main_usage_for_unknown_search_type answering (Some "example.com") (Some "MX")).
    simpl. intuition discriminate.
Defined.

(** The nil entry for A that is older than the slot: the first address
    lookup fails, the one that [GetPtrRecords] makes succeeds. *)
Lemma stale_address_entry :
  match GetAllRecords flaky (start "example.com") with
  | Returned m w => (m !! "A records", aRecords (rec w))
  | Fatal _ => (None, nil_slice)
  end
  = (Some (VIPs nil_slice), Some [example_ip]).
Proof. vm_compute. reflexivity. Qed.
